(** * Dataset pre-processor: the image pipeline

    Source: [Dataset_Pre-processor_Streamlit.py].

    A shallow embedding of [remove_bg_and_square], [apply_brightness],
    [resize_image], [save_image], [process_one] and the batch loop, with the
    properties of the specification proved (or refuted) about them.

    Modelling conventions.
    - Python [int] is [Z]; [//] on a positive divisor is [Z.div] (floor).
    - Python [float] values that the program computes from pixel counts
      ([target / w], [w * scale], ...) are carried as the exact rationals [Q]
      they approximate.  A comparison of two ratios of pixel counts and the
      rounding of a scaled side to the nearest integer are those of the exact
      values, except where a scaled side is exactly a half: there the double
      is within a rounding error of the half and [round] goes up or down with
      the operands.  That direction is a parameter ([mul_half_up],
      [div_half_up]): what is proved below holds for every choice of it.
    - An exception is a value of [exn]; a function that may raise returns
      [result].
    - A Pillow image is its mode string, its size and its pixel function.
      Size and mode of every library call are modelled; the pixel kernels the
      libraries compute (resampling, matting, blending, enhancement) are the
      fields of the class [Kernels].
    - The disk is explicit state: [process_one] takes a disk and returns the
      disk after the call.  Widgets (progress bar, log, error box) and the
      creation of parent directories are left out.
    - The image [Image.open] returns reads its pixels from the file only when
      they are needed; the field [Image.lazy] marks that object, so that what
      the program does with it after the [with] block has closed the file is
      modelled.
    - Statements on a scaled side that need not be a whole number bound it
      to within one pixel of its exact value ([near_side]). *)

From Stdlib Require Import Ascii ZArith QArith Qround String List Bool Lia.
Import ListNotations.

Local Open Scope Z_scope.

(* ------------------------------------------------------------------ *)
(** ** Exceptions and the error monad *)

Inductive exn : Type :=
| ValueError (msg : string)
| ZeroDivisionError (msg : string)
| OSError (msg : string).

(** [str(e)] *)
Definition str (e : exn) : string :=
  match e with
  | ValueError m | ZeroDivisionError m | OSError m => m
  end.

Inductive result (A : Type) : Type :=
| Ok (a : A)
| Raise (e : exn).
Arguments Ok {A} a.
Arguments Raise {A} e.

Definition bind {A B} (c : result A) (k : A -> result B) : result B :=
  match c with
  | Ok a => k a
  | Raise e => Raise e
  end.

Notation "x <- c ;; k" := (bind c (fun x => k))
  (at level 61, c at next level, right associativity).
Notation "' pat <- c ;; k" := (bind c (fun x => match x with pat => k end))
  (at level 61, pat pattern, c at next level, right associativity).

(* ------------------------------------------------------------------ *)
(** ** Python arithmetic *)

Module Py.

(** The exact value of [a / b] for two ints, [b] not 0. *)
Definition ratio (a b : Z) : Q := (inject_Z a / inject_Z b)%Q.

(** [a / b] on two ints. *)
Definition truediv (a b : Z) : result Q :=
  if b =? 0 then Raise (ZeroDivisionError "division by zero")
  else Ok (ratio a b).

(** [x / y] on floats. *)
Definition fdiv (x y : Q) : result Q :=
  if Qeq_bool y 0 then Raise (ZeroDivisionError "float division by zero")
  else Ok (x / y)%Q.

(** [x < y] on floats. *)
Definition lt (x y : Q) : bool :=
  Qnum x * QDen y <? Qnum y * QDen x.

(** [int(round(x))] for a double [x] whose exact value is [n / d], with
    [0 < d]: the nearest integer.  Where the exact value is a half,
    [m + 1/2], the double is within a rounding error of it, below, on or
    above, and [round] goes either way: [up] says whether the result is
    [m + 1].  At [m = 0] the double does not exceed 0.5 (a quotient by an
    exact ratio is exact, a product with a rounded ratio rounds back onto
    0.5 or below) and the result is 0. *)
Definition round_div (up : bool) (n d : Z) : Z :=
  let q := n / d in
  let r := n mod d in
  if 2 * r <? d then q
  else if d <? 2 * r then q + 1
  else if q =? 0 then 0
  else if up then q + 1 else q.

(** [int(round(x))] *)
Definition round (up : bool) (x : Q) : Z := round_div up (Qnum x) (QDen x).

(** [min(x, y)] on floats: [y] when [y < x], else [x]. *)
Definition min (x y : Q) : Q := if lt y x then y else x.

End Py.

(* ------------------------------------------------------------------ *)
(** ** Images *)

Definition Pixel : Type := (Z * Z * Z * Z)%type.

Definition alpha (p : Pixel) : Z := let '(_, _, _, a) := p in a.

(** [bg_rgba[:3]] used as the colour of an RGB image. *)
Definition rgb_of (p : Pixel) : Pixel :=
  let '(r, g, b, _) := p in (r, g, b, 255).

Definition transparent : Pixel := (0, 0, 0, 0).
Definition white : Pixel := (255, 255, 255, 255).

Module Image.
Record t : Type := mk {
  mode : string;
  width : Z;
  height : Z;
  getpixel : Z -> Z -> Pixel;
  (** the object [Image.open] returned, its pixels not read yet *)
  lazy : bool
}.

(** [im.size] *)
Definition size (im : t) : Z * Z := (width im, height im).
End Image.
Abbreviation Image := Image.t.
Import Image (width, height, getpixel, size).

(** A [pathlib.Path] of a file: the components of its parent, and the stem and
    suffix of its name. *)
Record Path : Type := mkPath {
  parts : list string;
  stem : string;
  suffix : string
}.

(** What the libraries compute and the program does not define: the pixel
    kernels of Pillow and rembg, whether rembg turns a picture, what reading a
    closed file does, the text of pathlib's error, and which way a double
    within a rounding error of a half is rounded. *)
Class Kernels : Type := {
  (** rembg's cutout of an RGBA image *)
  matte : Image -> Z -> Z -> Pixel;
  (** Lanczos resampling of an image to a size *)
  lanczos : Image -> Z * Z -> Z -> Z -> Pixel;
  (** mode conversion of one pixel, from a mode to a mode *)
  convert_pixel : string -> string -> Pixel -> Pixel;
  (** [paste] through a mask: destination, source, mask alpha *)
  blend : Pixel -> Pixel -> Z -> Pixel;
  (** [alpha_composite]: destination, source *)
  over : Pixel -> Pixel -> Pixel;
  (** [ImageEnhance.Brightness(img).enhance(factor)] *)
  brighten : Q -> Image -> Z -> Z -> Pixel;
  (** whether rembg, which first applies the EXIF orientation where its
      version does so, hands the picture back with its sides swapped *)
  transposes : Image -> bool;
  (** reading the pixels of an opened image whose file has been closed: the
      exception raised, or [None] where the pixels can still be read *)
  reload : Image -> option exn;
  (** the text of the [ValueError] of [p.relative_to(root)] *)
  not_in_subpath : Path -> list string -> string;
  (** [int(round(a * s))] for a pixel count [a] and a ratio [s] whose exact
      product is a half above 1: whether the double product rounds up *)
  mul_half_up : Z -> Q -> bool;
  (** the same for [int(round(a / s))] *)
  div_half_up : Z -> Q -> bool
}.

Definition inside (im : Image) (x y : Z) : bool :=
  (0 <=? x) && (x <? width im) && (0 <=? y) && (y <? height im).

Module PIL.

(** [Image.new(mode, size, color)] *)
Definition new (m : string) (sz : Z * Z) (color : Pixel) : Image :=
  {| Image.lazy := false; Image.mode := m; width := fst sz; height := snd sz;
     getpixel := fun _ _ => color |}.

(** [im.convert(mode)] *)
Definition convert `{Kernels} (im : Image) (m : string) : Image :=
  {| Image.lazy := false; Image.mode := m;
     width := width im; height := height im;
     getpixel := fun x y =>
       convert_pixel (Image.mode im) m (getpixel im x y) |}.

(** [im.copy()]: the pixels are read, the copy is a new image. *)
Definition copy (im : Image) : Image :=
  {| Image.lazy := false; Image.mode := Image.mode im; width := width im;
     height := height im; getpixel := getpixel im |}.

(** [im.resize(size, Image.LANCZOS)]: a copy when the size is the image's
    own, [ValueError] when a side is below one pixel. *)
Definition resize `{Kernels} (im : Image) (sz : Z * Z) : result Image :=
  let '(w, h) := sz in
  if (width im =? w) && (height im =? h) then Ok (copy im)
  else if (w <? 1) || (h <? 1)
  then Raise (ValueError "height and width must be > 0")
  else Ok {| Image.lazy := false; Image.mode := Image.mode im;
             width := w; height := h;
             getpixel := lanczos im sz |}.

(** [canvas.paste(im, (ox, oy))]: copy [im] into [canvas] at the offset. *)
Definition paste (canvas im : Image) (box : Z * Z) : Image :=
  let '(ox, oy) := box in
  {| Image.lazy := false; Image.mode := Image.mode canvas;
     width := width canvas;
     height := height canvas;
     getpixel := fun x y =>
       if inside im (x - ox) (y - oy)
       then getpixel im (x - ox) (y - oy)
       else getpixel canvas x y |}.

(** [canvas.paste(im, (ox, oy), mask)] *)
Definition paste_mask `{Kernels} (canvas im : Image) (box : Z * Z)
    (mask : Image) : Image :=
  let '(ox, oy) := box in
  {| Image.lazy := false; Image.mode := Image.mode canvas;
     width := width canvas;
     height := height canvas;
     getpixel := fun x y =>
       if inside im (x - ox) (y - oy)
       then blend (getpixel canvas x y) (getpixel im (x - ox) (y - oy))
                  (alpha (getpixel mask (x - ox) (y - oy)))
       else getpixel canvas x y |}.

(** [im.crop((left, top, right, bottom))]; outside the image the crop is
    zero-filled. *)
Definition crop (im : Image) (box : Z * Z * Z * Z) : Image :=
  let '(x0, y0, x1, y1) := box in
  {| Image.lazy := false; Image.mode := Image.mode im;
     width := x1 - x0; height := y1 - y0;
     getpixel := fun x y =>
       if inside im (x + x0) (y + y0)
       then getpixel im (x + x0) (y + y0)
       else transparent |}.

(** [bg.alpha_composite(im)] *)
Definition alpha_composite `{Kernels} (bg im : Image) : Image :=
  {| Image.lazy := false; Image.mode := Image.mode bg;
     width := width bg; height := height bg;
     getpixel := fun x y =>
       if inside im x y then over (getpixel bg x y) (getpixel im x y)
       else getpixel bg x y |}.

(** [ImageOps.expand(im, border=border, fill=fill)] *)
Definition expand (im : Image) (border : Z) (fill : Pixel) : Image :=
  let w := border + width im + border in
  let h := border + height im + border in
  paste (new (Image.mode im) (w, h) fill) im (border, border).

(** [ImageEnhance.Brightness(im).enhance(factor)] *)
Definition enhance `{Kernels} (im : Image) (factor : Q) : Image :=
  {| Image.lazy := false; Image.mode := Image.mode im; width := width im;
     height := height im; getpixel := brighten factor im |}.

(** [im.load()] as [im.save] calls it once the [with] block has closed the
    file: nothing to do for an image in memory; the opened image itself
    still has to read its pixels. *)
Definition load_closed `{Kernels} (im : Image) : result Image :=
  if Image.lazy im then
    match reload im with
    | Some e => Raise e
    | None => Ok (copy im)
    end
  else Ok im.

End PIL.

(** [remove(im)] of rembg: an RGBA cutout of the picture, of the same size
    or, where rembg turns the picture, with the sides swapped. *)
Definition remove `{Kernels} (im : Image) : Image :=
  {| Image.lazy := false; Image.mode := "RGBA";
     width := if transposes im then height im else width im;
     height := if transposes im then width im else height im;
     getpixel := matte im |}.

(* ------------------------------------------------------------------ *)
(** ** Image operations of the program *)

Local Open Scope string_scope.
Local Open Scope Z_scope.

(** [remove_bg_and_square], lines 141-142: the optional uniform padding. *)
Definition pad_step (out : Image) (pad : Z) : Image :=
  if 0 <? pad then PIL.expand out pad transparent else out.

(** Python's truth value of [square_size and square_size > 0]. *)
Definition fixed_square (square_size : option Z) : option Z :=
  match square_size with
  | Some s => if negb (s =? 0) && (0 <? s) then Some s else None
  | None => None
  end.

(** [remove_bg_and_square], lines 147-155: the subject scaled for a square of
    side [target]. *)
Definition scale_subject `{Kernels} (out : Image) (target : Z)
    (no_upscale : bool) : result Image :=
  let '(w, h) := size out in
  sw <- Py.truediv target w ;;
  sh <- Py.truediv target h ;;
  let scale := Py.min sw sh in
  if Py.lt scale 1 || (Py.lt 1 scale && negb no_upscale) then
    let use_scale := if Py.lt scale 1 || negb no_upscale then scale else 1%Q in
    let new_w :=
      Z.max 1 (Py.round (mul_half_up w use_scale) (inject_Z w * use_scale)) in
    let new_h :=
      Z.max 1 (Py.round (mul_half_up h use_scale) (inject_Z h * use_scale)) in
    if negb ((new_w =? w) && (new_h =? h))
    then PIL.resize out (new_w, new_h)
    else Ok out
  else Ok out.

(** [remove_bg_and_square], lines 144-163: the optional square canvas. *)
Definition square_step `{Kernels} (out : Image) (square : bool)
    (square_size : option Z) (no_upscale : bool) : result Image :=
  if square then
    match fixed_square square_size with
    | Some target =>
        out <- scale_subject out target no_upscale ;;
        let '(w, h) := size out in
        let canvas := PIL.new "RGBA" (target, target) transparent in
        Ok (PIL.paste_mask canvas out ((target - w) / 2, (target - h) / 2) out)
    | None =>
        let '(w, h) := size out in
        let side := Z.max w h in
        let canvas := PIL.new "RGBA" (side, side) transparent in
        Ok (PIL.paste_mask canvas out ((side - w) / 2, (side - h) / 2) out)
    end
  else Ok out.

(** [remove_bg_and_square], lines 165-173: compositing onto the background. *)
Definition composite_step `{Kernels} (out : Image) (bg_mode : string)
    (bg_rgba : Pixel) : Image :=
  if (bg_mode =? "white")%string then
    let bg := PIL.alpha_composite (PIL.new "RGBA" (size out) white) out in
    PIL.convert bg "RGB"
  else if (bg_mode =? "custom")%string then
    let bg := PIL.alpha_composite (PIL.new "RGBA" (size out) bg_rgba) out in
    if (alpha bg_rgba =? 255) then PIL.convert bg "RGB" else bg
  else out.

Definition remove_bg_and_square `{Kernels} (img : Image) (bg_mode : string)
    (bg_rgba : Pixel) (pad : Z) (square : bool) (square_size : option Z)
    (no_upscale : bool) : result Image :=
  let img :=
    if negb (Image.mode img =? "RGBA")%string then PIL.convert img "RGBA"
    else img in
  let out := remove img in
  let out := pad_step out pad in
  out <- square_step out square square_size no_upscale ;;
  Ok (composite_step out bg_mode bg_rgba).

Definition apply_brightness `{Kernels} (img : Image) (factor : Q) : Image :=
  if Qeq_bool factor 1 then img else PIL.enhance img factor.

(** [make_canvas] of [resize_image] *)
Definition make_canvas (bg_mode : string) (bg_rgba : Pixel) (sz : Z * Z)
    : Image :=
  if (bg_mode =? "transparent")%string then PIL.new "RGBA" sz transparent
  else if (bg_mode =? "white")%string then PIL.new "RGB" sz white
  else if (alpha bg_rgba =? 255) then PIL.new "RGB" sz (rgb_of bg_rgba)
  else PIL.new "RGBA" sz bg_rgba.

Definition resize_image `{Kernels} (img : Image) (enable : bool) (w h : Z)
    (mode bg_mode : string) (bg_rgba : Pixel) : result Image :=
  if negb enable || (w <=? 0) || (h <=? 0) then Ok img
  else if (mode =? "stretch")%string then PIL.resize img (w, h)
  else
    let img :=
      if negb (Image.mode img =? "RGBA")%string then PIL.convert img "RGBA"
      else img in
    let '(src_w, src_h) := size img in
    src_ratio <- Py.truediv src_w src_h ;;
    dst_ratio <- Py.truediv w h ;;
    if (mode =? "keep_aspect_pad")%string then
      '(new_w, new_h) <-
        (if Py.lt dst_ratio src_ratio
         then q <- Py.fdiv (inject_Z w) src_ratio ;;
              Ok (w, Py.round (div_half_up w src_ratio) q)
         else Ok (Py.round (mul_half_up h src_ratio)
                    (inject_Z h * src_ratio), h)) ;;
      resized <- PIL.resize img (new_w, new_h) ;;
      let canvas := make_canvas bg_mode bg_rgba (w, h) in
      let '(ox, oy) := ((w - new_w) / 2, (h - new_h) / 2) in
      Ok (PIL.paste_mask canvas resized (ox, oy) resized)
    else if (mode =? "keep_aspect_crop")%string then
      '(new_w, new_h) <-
        (if Py.lt src_ratio dst_ratio
         then q <- Py.fdiv (inject_Z w) src_ratio ;;
              Ok (w, Py.round (div_half_up w src_ratio) q)
         else Ok (Py.round (mul_half_up h src_ratio)
                    (inject_Z h * src_ratio), h)) ;;
      resized <- PIL.resize img (new_w, new_h) ;;
      let '(x0, y0) := ((new_w - w) / 2, (new_h - h) / 2) in
      let cropped := PIL.crop resized (x0, y0, x0 + w, y0 + h) in
      if (bg_mode =? "white")%string
         || ((bg_mode =? "custom")%string && (alpha bg_rgba =? 255))
      then Ok (PIL.convert cropped "RGB")
      else Ok cropped
    else Ok img.

(* ------------------------------------------------------------------ *)
(** ** Paths and the disk *)

(** [Path()] *)
Definition empty_path : Path := {| parts := []; stem := ""; suffix := "" |}.

(** [p.with_suffix(s)] *)
Definition with_suffix (p : Path) (s : string) : Path :=
  {| parts := parts p; stem := stem p; suffix := s |}.

(** [root / rel] *)
Definition joinpath (root : list string) (rel : Path) : Path :=
  {| parts := root ++ parts rel; stem := stem rel; suffix := suffix rel |}.

Fixpoint strip_prefix (root dirs : list string) : option (list string) :=
  match root, dirs with
  | [], _ => Some dirs
  | r :: root', d :: dirs' =>
      if (r =? d)%string then strip_prefix root' dirs' else None
  | _ :: _, [] => None
  end.

(** [p.relative_to(root)] *)
Definition relative_to `{Kernels} (p : Path) (root : list string)
    : result Path :=
  match strip_prefix root (parts p) with
  | Some dirs => Ok {| parts := dirs; stem := stem p; suffix := suffix p |}
  | None => Raise (ValueError (not_in_subpath p root))
  end.

Definition lower_ascii (c : Ascii.ascii) : Ascii.ascii :=
  let n := Ascii.nat_of_ascii c in
  if (65 <=? n)%nat && (n <=? 90)%nat then Ascii.ascii_of_nat (n + 32) else c.

(** [s.lower()] *)
Fixpoint lower (s : string) : string :=
  match s with
  | EmptyString => EmptyString
  | String c s' => String (lower_ascii c) (lower s')
  end.

(** [x in xs] on strings *)
Definition mem (x : string) (xs : list string) : bool :=
  existsb (String.eqb x) xs.

Fixpoint list_eqb (xs ys : list string) : bool :=
  match xs, ys with
  | [], [] => true
  | x :: xs', y :: ys' => (x =? y)%string && list_eqb xs' ys'
  | _, _ => false
  end.

Definition Path_eqb (p q : Path) : bool :=
  list_eqb (parts p) (parts q) && (stem p =? stem q)%string
  && (suffix p =? suffix q)%string.

(** What a file holds, for [Image.open]. *)
Inductive File : Type :=
| Picture (im : Image)
| Garbage (why : string).

(** The disk: the file at each path, and the paths that cannot be
    written. *)
Record Disk : Type := mkDisk {
  files : list (Path * File);
  readonly : Path -> bool
}.

Fixpoint lookup (p : Path) (fs : list (Path * File)) : option File :=
  match fs with
  | [] => None
  | (q, f) :: fs' => if Path_eqb p q then Some f else lookup p fs'
  end.

(** [p.exists()] *)
Definition exists_ (d : Disk) (p : Path) : bool :=
  match lookup p (files d) with Some _ => true | None => false end.

(** The image object [Image.open] makes of a picture in a file. *)
Definition opened (im : Image) : Image :=
  {| Image.lazy := true; Image.mode := Image.mode im; width := width im;
     height := height im; getpixel := getpixel im |}.

(** [Image.open(p)] *)
Definition open (d : Disk) (p : Path) : result Image :=
  match lookup p (files d) with
  | None => Raise (OSError "No such file or directory")
  | Some (Garbage why) => Raise (OSError why)
  | Some (Picture im) => Ok (opened im)
  end.

(** The files of a disk but the one at [p]. *)
Definition others (p : Path) (fs : list (Path * File)) : list (Path * File) :=
  filter (fun entry => negb (Path_eqb (fst entry) p)) fs.

(** [im.save(p)]: the file at [p] is created or replaced. *)
Definition save (d : Disk) (im : Image) (p : Path) : result Disk :=
  if readonly d p then Raise (OSError "Permission denied")
  else Ok {| files := (p, Picture im) :: others p (files d);
             readonly := readonly d |}.

(** [save_image], lines 234-240: the path the image is written to. *)
Definition save_path (out_img : Image) (out_path : Path) : Path :=
  if (Image.mode out_img =? "RGBA")%string then
    if negb (mem (lower (suffix out_path)) [".png"; ".webp"])
    then with_suffix out_path ".png" else out_path
  else
    if negb (mem (lower (suffix out_path)) [".jpg"; ".jpeg"; ".png"; ".webp"])
    then with_suffix out_path ".jpg" else out_path.

Definition save_image (d : Disk) (out_img : Image) (out_path : Path)
    : result Disk :=
  save d out_img (save_path out_img out_path).

(** The keyword arguments of [process_one]. *)
Record Args : Type := mkArgs {
  operation : string;
  bg_mode : string;
  bg_rgba : Pixel;
  pad : Z;
  square : bool;
  square_size : option Z;
  no_upscale : bool;
  brightness : Q;
  enable_resize : bool;
  target_w : Z;
  target_h : Z;
  resize_mode : string
}.

(** [process_one], lines 264-276: the selected operation on the opened image. *)
Definition transform `{Kernels} (base : Image) (a : Args) : result Image :=
  if (operation a =? "bg_only")%string then
    remove_bg_and_square base (bg_mode a) (bg_rgba a) (pad a) (square a)
      (square_size a) (no_upscale a)
  else if (operation a =? "resize_only")%string then
    resize_image base true (target_w a) (target_h a) (resize_mode a)
      (bg_mode a) (bg_rgba a)
  else if (operation a =? "brightness_only")%string then
    Ok (apply_brightness base (brightness a))
  else
    out <- remove_bg_and_square base (bg_mode a) (bg_rgba a) (pad a)
             (square a) (square_size a) (no_upscale a) ;;
    let out := apply_brightness out (brightness a) in
    if enable_resize a then
      resize_image out true (target_w a) (target_h a) (resize_mode a)
        (bg_mode a) (bg_rgba a)
    else Ok out.

(** [process_one], lines 258-278: the body of the [try].  The [with] block
    ends after the transform and closes the file, so [save_image] reads the
    pixels of its image through [PIL.load_closed]. *)
Definition attempt `{Kernels} (d : Disk) (in_path : Path)
    (in_root out_root : list string) (a : Args) : result (Disk * Path) :=
  rel <- relative_to in_path in_root ;;
  let out_path := with_suffix (joinpath out_root rel) (suffix rel) in
  im <- open d in_path ;;
  let base :=
    if negb (mem (Image.mode im) ["RGB"; "RGBA"]) then PIL.convert im "RGBA"
    else im in
  out <- transform base a ;;
  out <- PIL.load_closed out ;;
  d' <- save_image d out out_path ;;
  Ok (d', out_path).

Definition process_one `{Kernels} (d : Disk) (in_path : Path)
    (in_root out_root : list string) (a : Args)
    : Disk * (Path * Path * bool * string) :=
  match attempt d in_path in_root out_root a with
  | Ok (d', out_path) => (d', (in_path, out_path, true, ""))
  | Raise e => (d, (in_path, empty_path, false, str e))
  end.

(** The state of the batch loop, lines 601-633. *)
Record Run : Type := mkRun {
  disk : Disk;
  successes : Z;
  failures : list (Path * string);
  first_pair : option (Path * Path)
}.

(** One iteration of the loop, lines 606-630. *)
Definition loop_body `{Kernels} (in_root out_root : list string) (a : Args)
    (r : Run) (img_path : Path) : Run :=
  let '(d, (_, outp, ok, err)) :=
    process_one (disk r) img_path in_root out_root a in
  if ok then
    {| disk := d;
       successes := successes r + 1;
       failures := failures r;
       first_pair :=
         match first_pair r with
         | None =>
             let dst_guess :=
               if exists_ d outp then outp else with_suffix outp ".png" in
             Some (img_path, dst_guess)
         | Some fp => Some fp
         end |}
  else
    {| disk := d;
       successes := successes r;
       failures := failures r ++ [(img_path, err)];
       first_pair := first_pair r |}.

(** [for idx, img_path in enumerate(images, start=1): ...], with [a] the
    keyword arguments the loop passes to every call. *)
Definition batch `{Kernels} (in_root out_root : list string) (a : Args)
    (images : list Path) (r : Run) : Run :=
  fold_left (loop_body in_root out_root a) images r.

(** The state before the loop, line 602. *)
Definition start (d : Disk) : Run :=
  {| disk := d; successes := 0; failures := []; first_pair := None |}.

(* ------------------------------------------------------------------ *)
(** ** File-system and colour helpers *)

(** [VALID_EXTS] *)
Definition VALID_EXTS : list string :=
  [".jpg"; ".jpeg"; ".png"; ".webp"; ".bmp"; ".tiff"; ".tif";
   ".JPG"; ".JPEG"; ".PNG"; ".WEBP"; ".BMP"; ".TIFF"; ".TIF"].

(** [list_images(root)].  [root_exists] is [root.exists()]; [scan] is what
    [root.rglob("*")] yields, or the exception the walk raises. *)
Definition list_images (root_exists : bool) (scan : result (list Path))
    : list Path :=
  if negb root_exists then []
  else
    match scan with
    | Ok entries =>
        filter (fun p => mem (lower (suffix p)) VALID_EXTS) entries
    | Raise _ => []
    end.

(** Whitespace, as [str.strip] and [int] see it in ASCII text. *)
Definition is_space (c : Ascii.ascii) : bool :=
  let n := Ascii.nat_of_ascii c in
  ((9 <=? n)%nat && (n <=? 13)%nat) || ((28 <=? n)%nat && (n <=? 32)%nat).

(** [s.lstrip()] *)
Fixpoint lstrip (s : string) : string :=
  match s with
  | EmptyString => EmptyString
  | String c s' => if is_space c then lstrip s' else s
  end.

(** [s.rstrip()] *)
Fixpoint rstrip (s : string) : string :=
  match s with
  | EmptyString => EmptyString
  | String c s' =>
      match rstrip s' with
      | EmptyString => if is_space c then EmptyString else String c EmptyString
      | t => String c t
      end
  end.

(** [s.strip()] *)
Definition strip (s : string) : string := rstrip (lstrip s).

(** [s.lstrip(c)] for a one-character [c] *)
Fixpoint lstrip_char (c : Ascii.ascii) (s : string) : string :=
  match s with
  | EmptyString => EmptyString
  | String d s' => if Ascii.eqb d c then lstrip_char c s' else s
  end.

(** ["".join([c*2 for c in h])] *)
Fixpoint double (h : string) : string :=
  match h with
  | EmptyString => EmptyString
  | String c h' => String c (String c (double h'))
  end.

(** The value of a hexadecimal digit. *)
Definition hex_digit (c : Ascii.ascii) : option Z :=
  let n := Ascii.nat_of_ascii c in
  if (48 <=? n)%nat && (n <=? 57)%nat then Some (Z.of_nat n - 48)
  else if (97 <=? n)%nat && (n <=? 102)%nat then Some (Z.of_nat n - 87)
  else if (65 <=? n)%nat && (n <=? 70)%nat then Some (Z.of_nat n - 55)
  else None.

Fixpoint hex_value (acc : Z) (s : string) : option Z :=
  match s with
  | EmptyString => Some acc
  | String c s' =>
      match hex_digit c with
      | Some d => hex_value (16 * acc + d) s'
      | None => None
      end
  end.

Definition quote1 : Ascii.ascii := Ascii.ascii_of_nat 39.
Definition quote2 : Ascii.ascii := Ascii.ascii_of_nat 34.
Definition backslash : Ascii.ascii := Ascii.ascii_of_nat 92.

Fixpoint contains (c : Ascii.ascii) (s : string) : bool :=
  match s with
  | EmptyString => false
  | String d s' => Ascii.eqb d c || contains c s'
  end.

(** A lower-case hexadecimal digit. *)
Definition hex_char (n : nat) : Ascii.ascii :=
  if (n <? 10)%nat then Ascii.ascii_of_nat (48 + n)
  else Ascii.ascii_of_nat (87 + n).

(** One character of [repr(s)] between the quotes [q]. *)
Definition escaped (q c : Ascii.ascii) : string :=
  let n := Ascii.nat_of_ascii c in
  if Ascii.eqb c q || Ascii.eqb c backslash
  then String backslash (String c EmptyString)
  else if (n =? 9)%nat then String backslash "t"
  else if (n =? 10)%nat then String backslash "n"
  else if (n =? 13)%nat then String backslash "r"
  else if (n <? 32)%nat || (126 <? n)%nat then
    String backslash
      (String "x" (String (hex_char (n / 16))
         (String (hex_char (n mod 16)) EmptyString)))
  else String c EmptyString.

Fixpoint escape_all (q : Ascii.ascii) (s : string) : string :=
  match s with
  | EmptyString => EmptyString
  | String c s' => escaped q c ++ escape_all q s'
  end.

(** [repr(s)] of ASCII text *)
Definition repr (s : string) : string :=
  let q := if contains quote1 s && negb (contains quote2 s)
           then quote2 else quote1 in
  String q (escape_all q s ++ String q EmptyString).

(** The [ValueError] of [int(s, 16)]. *)
Definition invalid_literal (s : string) : exn :=
  ValueError ("invalid literal for int() with base 16: " ++ repr s).

(** [int(s, 16)] on the ASCII slices of at most two characters that
    [hex_to_rgb] takes: surrounding whitespace, an optional sign, then digits
    (two characters leave no room for a [0x] prefix or a digit separator). *)
Definition int16 (s : string) : result Z :=
  let t := strip s in
  let '(sign, body) :=
    match t with
    | String "+"%char b => (1, b)
    | String "-"%char b => (-1, b)
    | _ => (1, t)
    end in
  match body with
  | EmptyString => Raise (invalid_literal s)
  | _ =>
      match hex_value 0 body with
      | Some v => Ok (sign * v)
      | None => Raise (invalid_literal s)
      end
  end.

(** [hex_to_rgb(hex_color)], for ASCII text *)
Definition hex_to_rgb (hex_color : string) : result (Z * Z * Z) :=
  let h := lstrip_char "#"%char (strip hex_color) in
  let h := if (String.length h =? 3)%nat then double h else h in
  r <- int16 (substring 0 2 h) ;;
  g <- int16 (substring 2 2 h) ;;
  b <- int16 (substring 4 2 h) ;;
  Ok (r, g, b).

(* ------------------------------------------------------------------ *)
(** ** Notions the properties are stated with *)

Definition known_mode (mode : string) : bool :=
  mem mode ["stretch"; "keep_aspect_pad"; "keep_aspect_crop"].

Definition rgba `{Kernels} (img : Image) : Image :=
  if negb (Image.mode img =? "RGBA")%string then PIL.convert img "RGBA"
  else img.

(** The size [keep_aspect_pad] scales a [src_w] x [src_h] image to. *)
Definition pad_fit `{Kernels} (src_w src_h w h : Z) : Z * Z :=
  let src_ratio := Py.ratio src_w src_h in
  if w * src_h <? src_w * h
  then (w, Py.round_div (div_half_up w src_ratio) (w * src_h) src_w)
  else (Py.round_div (mul_half_up h src_ratio) (h * src_w) src_h, h).

(** The size [keep_aspect_crop] scales a [src_w] x [src_h] image to. *)
Definition crop_cover `{Kernels} (src_w src_h w h : Z) : Z * Z :=
  let src_ratio := Py.ratio src_w src_h in
  if src_w * h <? w * src_h
  then (w, Py.round_div (div_half_up w src_ratio) (w * src_h) src_w)
  else (Py.round_div (mul_half_up h src_ratio) (h * src_w) src_h, h).

(** [base] of [process_one], line 262. *)
Definition base_of `{Kernels} (im : Image) : Image :=
  if negb (mem (Image.mode im) ["RGB"; "RGBA"]) then PIL.convert im "RGBA"
  else im.

(** What [process_one] returns once the selected operation has given [r]:
    the pixels are read if the image still is the opened one, the image is
    saved, and an exception of the operation or of either step is reported. *)
Definition deliver `{Kernels} (d : Disk) (in_path out_path : Path)
    (r : result Image) : Disk * (Path * Path * bool * string) :=
  match (out <- r ;; out <- PIL.load_closed out ;;
         save_image d out out_path) with
  | Ok d' => (d', (in_path, out_path, true, ""))
  | Raise e => (d, (in_path, empty_path, false, str e))
  end.

(** A colour level [c'] that is the level [c] times [f], cut off at 255, to
    within one level. *)
Definition scaled_level (f : Q) (c c' : Z) : Prop :=
  Z.min 255 (Qfloor (f * inject_Z c) - 1) <= c'
  <= Z.min 255 (Qfloor (f * inject_Z c) + 1).

(** A pixel of 8-bit levels. *)
Definition levels_in_range (p : Pixel) : Prop :=
  let '(r, g, b, a) := p in
  0 <= r <= 255 /\ 0 <= g <= 255 /\ 0 <= b <= 255 /\ 0 <= a <= 255.

(** A pixel whose colour levels are those of [p] times [f] and whose alpha is
    that of [p]. *)
Definition scaled_pixel (f : Q) (p p' : Pixel) : Prop :=
  let '(r, g, b, a) := p in
  let '(r', g', b', a') := p' in
  scaled_level f r r' /\ scaled_level f g g' /\ scaled_level f b b'
  /\ a' = a.

(** What [ImageEnhance.Brightness] promises of its kernel: the picture is
    blended with black, so every colour level is multiplied by the factor,
    up to the rounding of the blend, and the alpha is kept. *)
Class Brightens (K : Kernels) : Prop :=
  brighten_scales :
    forall (f : Q) (im : Image) (x y : Z),
      (0 <= f)%Q -> levels_in_range (getpixel im x y) ->
      scaled_pixel f (getpixel im x y) (brighten f im x y).

(** The cutout that the later steps work on. *)
Definition cutout `{Kernels} (img : Image) (pad : Z) : Image :=
  pad_step (remove (rgba img)) pad.

(** The sides the subject is scaled to for a square of side [target]:
    [max(1, int(round(side * scale)))] with [scale = target / max(w, h)]. *)
Definition scaled_side `{Kernels} (side target w h : Z) : Z :=
  Z.max 1
    (Py.round_div
       (mul_half_up side (Py.min (Py.ratio target w) (Py.ratio target h)))
       (side * target) (Z.max w h)).

(** A side [new] that is [num / den] to within one pixel: whichever way the
    quotient is rounded, to the next integer below or above. *)
Definition near_side (num den new : Z) : Prop :=
  den * (new - 1) < num < den * (new + 1).

(** Whether [scale_subject] rescales: [scale < 1 or (scale > 1 and not
    no_upscale)]. *)
Definition rescales (out : Image) (target : Z) (no_upscale : bool) : bool :=
  let side := Z.max (width out) (height out) in
  (target <? side) || ((side <? target) && negb no_upscale).

(** The side of the square canvas. *)
Definition canvas_side (out : Image) (square_size : option Z) : Z :=
  match fixed_square square_size with
  | Some target => target
  | None => Z.max (width out) (height out)
  end.

Definition alpha_capable : list string := [".png"; ".webp"].
Definition kept_opaque : list string := [".jpg"; ".jpeg"; ".png"; ".webp"].

(** The state after a failure on [img_path] with the message [err]. *)
Definition record_failure (r : Run) (img_path : Path) (err : string) : Run :=
  {| disk := disk r;
     successes := successes r;
     failures := failures r ++ [(img_path, err)];
     first_pair := first_pair r |}.

(** The files accounted for: successes plus failures. *)
Definition accounted (r : Run) : Z :=
  successes r + Z.of_nat (length (failures r)).

(** The extensions [list_images] lets through, in lower case. *)
Definition supported : list string :=
  [".jpg"; ".jpeg"; ".png"; ".webp"; ".bmp"; ".tiff"; ".tif"].

(** [dst_guess] of the batch loop, line 624. *)
Definition dst_guess (d : Disk) (outp : Path) : Path :=
  if exists_ d outp then outp else with_suffix outp ".png".

(** The mode the background gives to what [resize_image] returns in its two
    aspect-keeping modes. *)
Definition background_mode (bg_mode : string) (bg_rgba : Pixel) : string :=
  if (bg_mode =? "white")%string then "RGB"
  else if (bg_mode =? "custom")%string && (alpha bg_rgba =? 255) then "RGB"
  else "RGBA".

(** The colour [make_canvas] fills with. *)
Definition canvas_colour (bg_mode : string) (bg_rgba : Pixel) : Pixel :=
  if (bg_mode =? "transparent")%string then transparent
  else if (bg_mode =? "white")%string then white
  else if alpha bg_rgba =? 255 then rgb_of bg_rgba
  else bg_rgba.

(** Every character is a hexadecimal digit. *)
Fixpoint all_hex (s : string) : bool :=
  match s with
  | EmptyString => true
  | String c s' =>
      match hex_digit c with Some _ => all_hex s' | None => false end
  end.


(** The keyword arguments the loop passes, lines 608-619, when the operation
    is 'Resize': the resize widgets' values, and for everything else the
    defaults of lines 421-422, as the other sections are hidden. *)
Definition resize_only_args (enable_resize : bool) (target_w target_h : Z)
    (resize_mode : string) : Args :=
  {| operation := "resize_only"; bg_mode := "transparent";
     bg_rgba := (0, 0, 0, 0); pad := 0; square := false; square_size := None;
     no_upscale := true; brightness := 1; enable_resize := enable_resize;
     target_w := target_w; target_h := target_h;
     resize_mode := resize_mode |}.

(* ------------------------------------------------------------------ *)
(** ** Sample inputs *)

(** A colour level times a factor, cut off at 0 and 255. *)
Definition scale_level (f : Q) (c : Z) : Z :=
  Z.max 0 (Z.min 255 (Qfloor (f * inject_Z c))).

(** Kernels to run the program with: nearest-neighbour resampling, a matte
    that keeps every pixel, hard-edged blending, brightness by scaling every
    colour level, a half rounded up from an odd integer part. *)
Definition nearest : Kernels :=
  {| matte := fun im x y => getpixel im x y;
     lanczos := fun im sz x y =>
       getpixel im (x * width im / fst sz) (y * height im / snd sz);
     convert_pixel := fun from to p =>
       if (to =? "RGB")%string then rgb_of p else p;
     blend := fun dst src a => if a =? 0 then dst else src;
     over := fun dst src => if alpha src =? 0 then dst else src;
     brighten := fun f im x y =>
       let '(r, g, b, a) := getpixel im x y in
       (scale_level f r, scale_level f g, scale_level f b, a);
     transposes := fun _ => false;
     reload := fun _ => Some (ValueError "Operation on closed image");
     not_in_subpath := fun p root =>
       stem p ++ suffix p ++ " is not in the subpath of the root";
     mul_half_up := fun a s => Z.odd (Qfloor (inject_Z a * s));
     div_half_up := fun a s => Z.odd (Qfloor (inject_Z a / s)) |}.

(** A 2000 x 1 RGB picture. *)
Definition thin_line : Image :=
  {| Image.lazy := false; Image.mode := "RGB"; width := 2000; height := 1;
     getpixel := fun _ _ => (10, 20, 30, 255) |}.

(** A 640 x 480 RGB picture. *)
Definition photo : Image :=
  {| Image.lazy := false; Image.mode := "RGB"; width := 640; height := 480;
     getpixel := fun x y => (x mod 256, y mod 256, 7, 255) |}.

(** A 30 x 20 RGBA picture. *)
Definition icon : Image :=
  {| Image.lazy := false; Image.mode := "RGBA"; width := 30; height := 20;
     getpixel := fun x y => (200, x, y, 128) |}.

(** The settings of a run that does everything, resize included. *)
Definition all_on : Args :=
  {| operation := "do_all"; bg_mode := "white"; bg_rgba := white; pad := 4;
     square := false; square_size := None; no_upscale := true;
     brightness := 5 # 4; enable_resize := true; target_w := 512;
     target_h := 512; resize_mode := "keep_aspect_crop" |}.

(** A scan saved as a bitmap. *)
Definition scan_bmp : Path :=
  {| parts := ["in"; "cats"]; stem := "scan"; suffix := ".BMP" |}.

(** A folder with an unreadable file between two pictures. *)
Definition cat_jpg : Path :=
  {| parts := ["in"]; stem := "cat"; suffix := ".jpg" |}.
Definition broken_png : Path :=
  {| parts := ["in"]; stem := "broken"; suffix := ".png" |}.
Definition dog_jpg : Path :=
  {| parts := ["in"; "dogs"]; stem := "dog"; suffix := ".jpg" |}.

Definition folder : Disk :=
  {| files := [(cat_jpg, Picture photo);
               (broken_png, Garbage "cannot identify image file");
               (dog_jpg, Picture photo)];
     readonly := fun _ => false |}.

Definition brightness_run : Args :=
  {| operation := "brightness_only"; bg_mode := "transparent";
     bg_rgba := transparent; pad := 0; square := false; square_size := None;
     no_upscale := true; brightness := 5 # 4; enable_resize := false;
     target_w := 0; target_h := 0; resize_mode := "keep_aspect_pad" |}.

(** The brightness-only run with the slider left at 1.0. *)
Definition brightness_off : Args :=
  {| operation := "brightness_only"; bg_mode := "transparent";
     bg_rgba := transparent; pad := 0; square := false; square_size := None;
     no_upscale := true; brightness := 1; enable_resize := false;
     target_w := 0; target_h := 0; resize_mode := "keep_aspect_pad" |}.

(** A snapshot straight from a camera, and a text file beside it. *)
Definition snapshot_JPG : Path :=
  {| parts := ["in"]; stem := "IMG_0001"; suffix := ".JPG" |}.
Definition notes_txt : Path :=
  {| parts := ["in"]; stem := "notes"; suffix := ".txt" |}.

(** An empty disk on which every path can be written. *)
Definition blank : Disk := {| files := []; readonly := fun _ => false |}.

(** Project the fields of an image built by the library calls. *)
Ltac fields :=
  cbn [width height getpixel Image.mode Image.width Image.height
       Image.getpixel Image.size size fst snd
       PIL.new PIL.paste PIL.paste_mask PIL.expand PIL.convert PIL.crop
       PIL.alpha_composite PIL.enhance remove] in *.

(* ------------------------------------------------------------------ *)
(** ** Arithmetic of scaled sides *)

Section Rounding.

Variable up : bool.
Variables n d : Z.
Hypothesis d_pos : 0 < d.

(** The rounded quotient is within half a unit of the exact one, whichever
    way a half goes. *)
Lemma round_div_near :
  2 * n - d <= 2 * d * Py.round_div up n d <= 2 * n + d.
Proof.
  unfold Py.round_div.
  pose proof (Z.div_mod n d ltac:(lia)) as E.
  pose proof (Z.mod_pos_bound n d d_pos) as B.
  destruct (2 * (n mod d) <? d) eqn:C1; [apply Z.ltb_lt in C1; nia|].
  apply Z.ltb_ge in C1.
  destruct (d <? 2 * (n mod d)) eqn:C2; [apply Z.ltb_lt in C2; nia|].
  apply Z.ltb_ge in C2.
  destruct (Z.eqb_spec (n / d) 0) as [Z0|_]; [nia|].
  destruct up; nia.
Qed.

Lemma round_div_le (k : Z) : n <= k * d -> Py.round_div up n d <= k.
Proof. pose proof round_div_near. nia. Qed.

Lemma round_div_ge (k : Z) : k * d <= n -> k <= Py.round_div up n d.
Proof. pose proof round_div_near. nia. Qed.

End Rounding.

Lemma round_div_exact (up : bool) (k d : Z) :
  0 < d -> Py.round_div up (k * d) d = k.
Proof.
  intros Hd. apply Z.le_antisymm.
  - apply round_div_le; lia.
  - apply round_div_ge; lia.
Qed.

(** [target / m] as a fraction. *)
Lemma truediv_pos (t m : Z) :
  0 < m ->
  exists q, Py.truediv t m = Ok q /\ Qnum q = t /\ QDen q = m
            /\ q = Py.ratio t m.
Proof.
  intros Hm. unfold Py.truediv, Py.ratio.
  destruct (Z.eqb_spec m 0) as [->|_]; [lia|].
  eexists; split; [reflexivity|].
  destruct m as [|p|p]; try lia.
  cbn. split; [lia | split; reflexivity].
Qed.

(** [int(round(a * s))] for an int [a] and a float [s]. *)
Lemma round_scaled (up : bool) (a : Z) (s : Q) :
  Py.round up (inject_Z a * s) = Py.round_div up (a * Qnum s) (QDen s).
Proof. unfold Py.round. destruct s as [sn sd]. reflexivity. Qed.

(** [int(round(a / s))] for an int [a] and a positive float [s]. *)
Lemma round_unscaled (up : bool) (a : Z) (s q : Q) :
  0 < Qnum s ->
  Py.fdiv (inject_Z a) s = Ok q ->
  Py.round up q = Py.round_div up (a * QDen s) (Qnum s).
Proof.
  intros Hs. unfold Py.fdiv.
  destruct s as [sn sd]; cbn in Hs.
  destruct sn as [|p|p]; try lia.
  cbn. intros [= <-]. reflexivity.
Qed.

Lemma fdiv_pos (a : Z) (s : Q) :
  0 < Qnum s -> exists q, Py.fdiv (inject_Z a) s = Ok q.
Proof.
  intros Hs. unfold Py.fdiv.
  destruct s as [sn sd]; cbn in Hs.
  destruct sn as [|p|p]; try lia.
  cbn. eexists; reflexivity.
Qed.

(* ------------------------------------------------------------------ *)
(** ** [resize_image] *)

Section Resize.

Context `{K : Kernels}.

Lemma resize_size (im out : Image) (sz : Z * Z) :
  PIL.resize im sz = Ok out -> size out = sz.
Proof.
  destruct sz as [w h]. unfold PIL.resize, size.
  destruct (Z.eqb_spec (width im) w), (Z.eqb_spec (height im) h); cbn;
    try (destruct ((w <? 1) || (h <? 1)); [discriminate|]);
    intros [= <-]; cbn; congruence.
Qed.

Lemma resize_keeps_mode (im out : Image) (sz : Z * Z) :
  PIL.resize im sz = Ok out -> Image.mode out = Image.mode im.
Proof.
  destruct sz as [w h]. unfold PIL.resize.
  destruct ((width im =? w) && (height im =? h)); [now intros [= <-]|].
  destruct ((w <? 1) || (h <? 1)); [discriminate|].
  now intros [= <-].
Qed.

Lemma resize_total (im : Image) (w h : Z) :
  1 <= w -> 1 <= h -> exists out, PIL.resize im (w, h) = Ok out.
Proof.
  intros Hw Hh. unfold PIL.resize.
  destruct ((width im =? w) && (height im =? h)); [eauto|].
  destruct (Z.ltb_spec w 1); [lia|].
  destruct (Z.ltb_spec h 1); [lia|].
  cbn. eauto.
Qed.

Lemma resize_fails (im : Image) (w h : Z) :
  0 < height im -> h < 1 ->
  PIL.resize im (w, h) = Raise (ValueError "height and width must be > 0").
Proof.
  intros Him Hh. unfold PIL.resize.
  destruct (Z.eqb_spec (height im) h); [lia|].
  rewrite andb_false_r.
  destruct (Z.ltb_spec h 1); [|lia].
  now rewrite orb_true_r.
Qed.

Lemma make_canvas_size (bg_mode : string) (bg_rgba : Pixel) (sz : Z * Z) :
  size (make_canvas bg_mode bg_rgba sz) = sz.
Proof.
  unfold make_canvas.
  destruct (bg_mode =? "transparent")%string, (bg_mode =? "white")%string,
    (alpha bg_rgba =? 255); destruct sz; reflexivity.
Qed.

(** Whenever [resize_image] returns for one of its three modes, what it
    returns has exactly the target size. *)
Lemma resize_image_size (img out : Image) (w h : Z)
    (mode bg_mode : string) (bg_rgba : Pixel) :
  0 < w -> 0 < h -> known_mode mode = true ->
  resize_image img true w h mode bg_mode bg_rgba = Ok out ->
  size out = (w, h).
Proof.
  intros Hw Hh Hm. unfold resize_image.
  destruct (Z.leb_spec w 0); [lia|].
  destruct (Z.leb_spec h 0); [lia|]. cbn [negb orb].
  destruct (mode =? "stretch")%string eqn:Es; [apply resize_size|].
  fold (rgba img). unfold size at 1.
  destruct (Py.truediv (width (rgba img)) (height (rgba img)))
    as [src_ratio|]; [|discriminate].
  destruct (Py.truediv w h) as [dst_ratio|]; [|discriminate].
  cbn [bind].
  destruct (mode =? "keep_aspect_pad")%string eqn:Ep.
  - match goal with
    | |- context [bind ?c _] => destruct c as [[new_w new_h]|]
    end;
      [|discriminate].
    cbn [bind].
    destruct (PIL.resize (rgba img) (new_w, new_h)); [|discriminate].
    cbn [bind]. intros [= <-].
    apply (make_canvas_size bg_mode bg_rgba (w, h)).
  - destruct (mode =? "keep_aspect_crop")%string eqn:Ec.
    + match goal with
      | |- context [bind ?c _] => destruct c as [[new_w new_h]|]
      end;
        [|discriminate].
      cbn [bind].
      destruct (PIL.resize (rgba img) (new_w, new_h)); [|discriminate].
      cbn [bind].
      destruct ((bg_mode =? "white")%string
                || (bg_mode =? "custom")%string && (alpha bg_rgba =? 255));
        intros [= <-]; unfold size; cbn; f_equal; lia.
    + unfold known_mode, mem in Hm. cbn in Hm.
      rewrite Es, Ep, Ec in Hm. discriminate.
Qed.

End Resize.

Section ResizeModes.

Context `{K : Kernels}.
Variables (img : Image) (w h : Z) (bg_mode : string) (bg_rgba : Pixel).
Hypothesis img_w : 0 < width img.
Hypothesis img_h : 0 < height img.
Hypothesis w_pos : 0 < w.
Hypothesis h_pos : 0 < h.

Lemma rgba_width : width (rgba img) = width img.
Proof. unfold rgba. now destruct (negb _). Qed.

Lemma rgba_height : height (rgba img) = height img.
Proof. unfold rgba. now destruct (negb _). Qed.

Lemma guard_open :
  negb true || (w <=? 0) || (h <=? 0) = false.
Proof.
  destruct (Z.leb_spec w 0); [lia|]. now destruct (Z.leb_spec h 0); [lia|].
Qed.

Lemma resize_image_stretch :
  exists out,
    resize_image img true w h "stretch" bg_mode bg_rgba = Ok out
    /\ size out = (w, h).
Proof.
  unfold resize_image. rewrite guard_open. cbn [String.eqb Ascii.eqb].
  destruct (resize_total img w h) as [out E]; try lia.
  exists out. split; [exact E | exact (resize_size _ _ _ E)].
Qed.

(** [keep_aspect_pad] resizes to [pad_fit] and pastes at the centre. *)
Lemma resize_image_pad :
  resize_image img true w h "keep_aspect_pad" bg_mode bg_rgba =
  let '(new_w, new_h) := pad_fit (width img) (height img) w h in
  resized <- PIL.resize (rgba img) (new_w, new_h) ;;
  Ok (PIL.paste_mask (make_canvas bg_mode bg_rgba (w, h)) resized
        ((w - new_w) / 2, (h - new_h) / 2) resized).
Proof.
  unfold resize_image. rewrite guard_open.
  cbn [String.eqb Ascii.eqb Bool.eqb andb]. fold (rgba img). unfold size at 1.
  rewrite rgba_width, rgba_height.
  destruct (truediv_pos (width img) (height img) img_h)
    as (s & -> & Ns & Ds & Es).
  destruct (truediv_pos w h h_pos) as (t & -> & Nt & Dt & _).
  cbn [bind]. unfold Py.lt, pad_fit. cbn zeta.
  rewrite <- Es, Ns, Ds, Nt, Dt.
  destruct (w * height img <? width img * h).
  - destruct (fdiv_pos w s) as [q E]; [lia|]. rewrite E. cbn [bind].
    rewrite (round_unscaled _ w s q) by (lia || assumption).
    rewrite Ns, Ds. reflexivity.
  - cbn [bind]. rewrite round_scaled, Ns, Ds. reflexivity.
Qed.

(** [keep_aspect_crop] resizes to [crop_cover] and crops at the centre. *)
Lemma resize_image_crop :
  resize_image img true w h "keep_aspect_crop" bg_mode bg_rgba =
  let '(new_w, new_h) := crop_cover (width img) (height img) w h in
  resized <- PIL.resize (rgba img) (new_w, new_h) ;;
  let '(x0, y0) := ((new_w - w) / 2, (new_h - h) / 2) in
  let cropped := PIL.crop resized (x0, y0, x0 + w, y0 + h) in
  if (bg_mode =? "white")%string
     || ((bg_mode =? "custom")%string && (alpha bg_rgba =? 255))
  then Ok (PIL.convert cropped "RGB")
  else Ok cropped.
Proof.
  unfold resize_image. rewrite guard_open.
  cbn [String.eqb Ascii.eqb Bool.eqb andb]. fold (rgba img). unfold size at 1.
  rewrite rgba_width, rgba_height.
  destruct (truediv_pos (width img) (height img) img_h)
    as (s & -> & Ns & Ds & Es).
  destruct (truediv_pos w h h_pos) as (t & -> & Nt & Dt & _).
  cbn [bind]. unfold Py.lt, crop_cover. cbn zeta.
  rewrite <- Es, Ns, Ds, Nt, Dt.
  destruct (width img * h <? w * height img).
  - destruct (fdiv_pos w s) as [q E]; [lia|]. rewrite E. cbn [bind].
    rewrite (round_unscaled _ w s q) by (lia || assumption).
    rewrite Ns, Ds. reflexivity.
  - cbn [bind]. rewrite round_scaled, Ns, Ds. reflexivity.
Qed.

(** The covering size is never below the target, so [keep_aspect_crop]
    always returns. *)
Lemma crop_cover_covers :
  w <= fst (crop_cover (width img) (height img) w h)
  /\ h <= snd (crop_cover (width img) (height img) w h).
Proof.
  unfold crop_cover.
  destruct (Z.ltb_spec (width img * h) (w * height img)); cbn [fst snd].
  - split; [lia|]. apply round_div_ge; lia.
  - split; [|lia]. apply round_div_ge; lia.
Qed.

Lemma resize_image_crop_total :
  exists out,
    resize_image img true w h "keep_aspect_crop" bg_mode bg_rgba = Ok out
    /\ size out = (w, h).
Proof.
  assert (exists out,
    resize_image img true w h "keep_aspect_crop" bg_mode bg_rgba = Ok out)
    as [out E].
  { rewrite resize_image_crop. pose proof crop_cover_covers as [Cw Ch].
    destruct (crop_cover _ _ _ _) as [new_w new_h]; cbn [fst snd] in *.
    destruct (resize_total (rgba img) new_w new_h) as [r ->]; try lia.
    cbn [bind]. destruct (_ || _); eauto. }
  exists out. split; [exact E|].
  now apply (resize_image_size img out w h "keep_aspect_crop" bg_mode bg_rgba).
Qed.

(** [keep_aspect_pad] returns when the fitted size has no empty side. *)
Lemma resize_image_pad_total :
  1 <= fst (pad_fit (width img) (height img) w h) ->
  1 <= snd (pad_fit (width img) (height img) w h) ->
  exists out,
    resize_image img true w h "keep_aspect_pad" bg_mode bg_rgba = Ok out
    /\ size out = (w, h).
Proof.
  intros Fw Fh.
  assert (exists out,
    resize_image img true w h "keep_aspect_pad" bg_mode bg_rgba = Ok out)
    as [out E].
  { rewrite resize_image_pad.
    destruct (pad_fit _ _ _ _) as [new_w new_h]; cbn [fst snd] in *.
    destruct (resize_total (rgba img) new_w new_h) as [r ->]; try lia.
    cbn [bind]. eauto. }
  exists out. split; [exact E|].
  now apply (resize_image_size img out w h "keep_aspect_pad" bg_mode bg_rgba).
Qed.

(** [keep_aspect_pad] raises when the fitted height rounds to zero. *)
Lemma resize_image_pad_raises :
  snd (pad_fit (width img) (height img) w h) < 1 ->
  resize_image img true w h "keep_aspect_pad" bg_mode bg_rgba =
  Raise (ValueError "height and width must be > 0").
Proof.
  intros Fh. rewrite resize_image_pad.
  destruct (pad_fit _ _ _ _) as [new_w new_h]; cbn [fst snd] in *.
  rewrite resize_fails; [reflexivity | now rewrite rgba_height | exact Fh].
Qed.

End ResizeModes.

(** C1 (fails on the code): [resize_image] in mode [keep_aspect_pad] does not
    return an image of the target size for every image.  For the 2000 x 1
    picture and the target 512 x 512 the fitted height is
    [int(round(512 / 2000.0)) = 0], the library refuses the empty size and
    the call raises [ValueError], whatever the kernels and the background. *)
Theorem resize_image_pad_thin_line_raises
    (K : Kernels) (bg_mode : string) (bg_rgba : Pixel) :
  resize_image thin_line true 512 512 "keep_aspect_pad" bg_mode bg_rgba
  = Raise (ValueError "height and width must be > 0").
Proof.
  apply resize_image_pad_raises; cbn; lia.
Qed.

Lemma rgba_of_rgba `{K : Kernels} (img : Image) :
  Image.mode img = "RGBA" -> rgba img = img.
Proof. unfold rgba. now intros ->. Qed.

(** C10 as stated fails: with an unknown mode string an RGB picture comes
    back converted to RGBA, not unchanged. *)
Lemma resize_image_unknown_mode_converts :
  resize_image (H := nearest) photo true 512 512 "fit" "transparent"
    transparent
  <> Ok photo.
Proof.
  intros E.
  assert (M : option_map Image.mode
                (match resize_image (H := nearest) photo true 512 512 "fit"
                         "transparent" transparent with
                 | Ok im => Some im
                 | Raise _ => None
                 end)
              = Some "RGB") by now rewrite E.
  vm_compute in M. discriminate M.
Qed.

(** C10 (amended): [resize_image] returns its input unchanged whenever
    resizing is disabled or the target width or height is not positive; when
    resizing is on for a positive target and the mode string is none of
    'stretch', 'keep_aspect_pad', 'keep_aspect_crop', it returns the image
    converted to RGBA (for an image of non-zero height), which is the input
    itself when the input is RGBA already. *)
Theorem resize_image_identity `{K : Kernels} (img : Image) (enable : bool)
    (w h : Z) (mode bg_mode : string) (bg_rgba : Pixel) :
  (enable = false \/ w <= 0 \/ h <= 0 ->
   resize_image img enable w h mode bg_mode bg_rgba = Ok img)
  /\ (enable = true -> 0 < w -> 0 < h -> known_mode mode = false ->
      height img <> 0 ->
      resize_image img enable w h mode bg_mode bg_rgba = Ok (rgba img))
  /\ (Image.mode img = "RGBA" -> rgba img = img).
Proof.
  split; [|split].
  - intros G. unfold resize_image.
    destruct enable; [|reflexivity].
    destruct (Z.leb_spec w 0); [reflexivity|].
    destruct (Z.leb_spec h 0); [now rewrite orb_true_r|].
    destruct G as [G|[G|G]]; [discriminate | lia | lia].
  - intros -> Hw Hh Hm Him. unfold resize_image.
    rewrite guard_open by assumption.
    unfold known_mode, mem in Hm. cbn [existsb] in Hm.
    apply orb_false_elim in Hm as [-> Hm].
    apply orb_false_elim in Hm as [-> Hm].
    apply orb_false_elim in Hm as [-> _].
    fold (rgba img). unfold size at 1. rewrite rgba_height.
    unfold Py.truediv.
    destruct (Z.eqb_spec (height img) 0); [contradiction|].
    destruct (Z.eqb_spec h 0); [lia|].
    reflexivity.
  - apply rgba_of_rgba.
Qed.

Lemma resize_image_identity_witness :
  resize_image (H := nearest) photo false 512 512 "stretch" "white" white
  = Ok photo
  /\ resize_image (H := nearest) photo true 512 512 "fit" "white" white
     = Ok (rgba (H := nearest) photo)
  /\ rgba (H := nearest) icon = icon.
Proof.
  split; [|split].
  - apply (resize_image_identity (K := nearest) photo false 512 512
             "stretch" "white" white).
    left. reflexivity.
  - apply (resize_image_identity (K := nearest) photo true 512 512
             "fit" "white" white);
      [reflexivity | lia | lia | reflexivity | cbn; lia].
  - apply (resize_image_identity (K := nearest) icon true 1 1
             "fit" "white" white).
    reflexivity.
Defined.

(* ------------------------------------------------------------------ *)
(** ** [remove_bg_and_square]: padding *)

Lemma remove_bg_and_square_steps `{K : Kernels} (img : Image)
    (bg_mode : string) (bg_rgba : Pixel) (pad : Z) (square : bool)
    (square_size : option Z) (no_upscale : bool) :
  remove_bg_and_square img bg_mode bg_rgba pad square square_size no_upscale
  = (out <- square_step (cutout img pad) square square_size no_upscale ;;
     Ok (composite_step out bg_mode bg_rgba)).
Proof. reflexivity. Qed.

Lemma pad_step_size (out : Image) (pad : Z) :
  size (pad_step out pad)
  = (width out + 2 * Z.max 0 pad, height out + 2 * Z.max 0 pad).
Proof.
  unfold pad_step, size.
  destruct (Z.ltb_spec 0 pad);
    [rewrite Z.max_r by lia | rewrite Z.max_l by lia]; fields; f_equal; lia.
Qed.


(** C9: for [pad > 0] the padding step of [remove_bg_and_square] yields an
    image [2 * pad] wider and higher, whose pixels are the input's moved by
    [(pad, pad)] and fully transparent on the border of [pad] pixels at each
    of the four sides; for [pad = 0] the image is left unchanged.  Without
    squaring and on a transparent background this padded cutout is what
    [remove_bg_and_square] returns. *)
Theorem pad_step_expands `{K : Kernels} (img out : Image) (pad : Z) :
  (0 < pad ->
   width (pad_step out pad) = width out + 2 * pad
   /\ height (pad_step out pad) = height out + 2 * pad
   /\ Image.mode (pad_step out pad) = Image.mode out
   /\ (forall x y,
         pad <= x < pad + width out -> pad <= y < pad + height out ->
         getpixel (pad_step out pad) x y = getpixel out (x - pad) (y - pad))
   /\ (forall x y,
         x < pad \/ pad + width out <= x \/ y < pad \/ pad + height out <= y ->
         getpixel (pad_step out pad) x y = transparent))
  /\ pad_step out 0 = out
  /\ (forall bg_rgba square_size no_upscale,
        remove_bg_and_square img "transparent" bg_rgba pad false square_size
          no_upscale
        = Ok (pad_step (remove (rgba img)) pad)).
Proof.
  split; [|split].
  - intros Hp. unfold pad_step.
    destruct (Z.ltb_spec 0 pad); [|lia].
    fields. repeat split; try lia.
    + intros x y Hx Hy. unfold inside.
      destruct (Z.leb_spec 0 (x - pad)); [|lia].
      destruct (Z.ltb_spec (x - pad) (width out)); [|lia].
      destruct (Z.leb_spec 0 (y - pad)); [|lia].
      destruct (Z.ltb_spec (y - pad) (height out)); [|lia].
      reflexivity.
    + intros x y Hxy. unfold inside.
      destruct (Z.leb_spec 0 (x - pad)); [|reflexivity].
      destruct (Z.ltb_spec (x - pad) (width out)); [|reflexivity].
      destruct (Z.leb_spec 0 (y - pad)); [|reflexivity].
      destruct (Z.ltb_spec (y - pad) (height out)); [|reflexivity].
      lia.
  - reflexivity.
  - reflexivity.
Qed.

Lemma pad_step_expands_witness :
  width (pad_step icon 8) = 46 /\ height (pad_step icon 8) = 36
  /\ getpixel (pad_step icon 8) 3 20 = transparent.
Proof.
  destruct (proj1 (pad_step_expands (K := nearest) icon icon 8))
    as (Hw & Hh & _ & _ & Hb); [lia|].
  split; [exact Hw | split; [exact Hh | apply Hb; left; lia]].
Defined.

(* ------------------------------------------------------------------ *)
(** ** [remove_bg_and_square]: the square canvas *)

Section Square.

Context `{K : Kernels}.
Variables (out : Image) (target : Z).
Hypothesis out_w : 0 < width out.
Hypothesis out_h : 0 < height out.
Hypothesis target_pos : 0 < target.

(** [min(target / w, target / h)] is [target / max(w, h)]. *)
Lemma scale_fraction (sw sh : Q) :
  Qnum sw = target -> QDen sw = width out ->
  Qnum sh = target -> QDen sh = height out ->
  Qnum (Py.min sw sh) = target
  /\ QDen (Py.min sw sh) = Z.max (width out) (height out).
Proof.
  intros Nw Dw Nh Dh. unfold Py.min, Py.lt. rewrite Nw, Dw, Nh, Dh.
  destruct (Z.ltb_spec (target * width out) (target * height out)).
  - split; [exact Nh|]. rewrite Dh. nia.
  - split; [exact Nw|]. rewrite Dw. nia.
Qed.

Lemma lt_one (s : Q) : Py.lt s 1 = (Qnum s <? QDen s).
Proof.
  unfold Py.lt. cbn [Qnum Qden]. now rewrite Z.mul_1_r, Z.mul_1_l.
Qed.

Lemma one_lt (s : Q) : Py.lt 1 s = (QDen s <? Qnum s).
Proof.
  unfold Py.lt. cbn [Qnum Qden]. now rewrite Z.mul_1_r, Z.mul_1_l.
Qed.

Lemma scaled_side_pos (side : Z) :
  1 <= scaled_side side target (width out) (height out).
Proof. unfold scaled_side. lia. Qed.

(** [scale_subject] always returns: the subject as it is, or resized to
    the scaled sides. *)
Lemma scale_subject_cases (no_upscale : bool) :
  exists subject,
    scale_subject out target no_upscale = Ok subject
    /\ Image.mode subject = Image.mode out
    /\ if rescales out target no_upscale
       then width subject
            = scaled_side (width out) target (width out) (height out)
            /\ height subject
               = scaled_side (height out) target (width out) (height out)
       else subject = out.
Proof.
  unfold scale_subject, rescales. unfold size at 1.
  destruct (truediv_pos target (width out) out_w)
    as (sw & -> & Nw & Dw & Esw).
  destruct (truediv_pos target (height out) out_h)
    as (sh & -> & Nh & Dh & Esh).
  cbn [bind].
  destruct (scale_fraction sw sh Nw Dw Nh Dh) as [Ns Ds].
  set (scale := Py.min sw sh) in *.
  rewrite lt_one, one_lt, Ns, Ds.
  set (go := (target <? _) || _).
  assert (U : go = true ->
              (if (target <? Z.max (width out) (height out))
                  || negb no_upscale then scale else 1%Q) = scale).
  { subst go. destruct (target <? _); [reflexivity|].
    cbn [orb]. destruct no_upscale; [|reflexivity].
    now rewrite andb_false_r. }
  destruct go; [|exists out; auto].
  rewrite (U eq_refl), !round_scaled, Ns, Ds.
  subst scale sw sh.
  fold (scaled_side (width out) target (width out) (height out)).
  fold (scaled_side (height out) target (width out) (height out)).
  match goal with |- context [negb ?c] => destruct c eqn:Same end;
    cbn [negb].
  - exists out. apply andb_prop in Same as [Ew Eh].
    apply Z.eqb_eq in Ew, Eh. auto.
  - destruct (resize_total out
                (scaled_side (width out) target (width out) (height out))
                (scaled_side (height out) target (width out) (height out)))
      as [subject E]; try apply scaled_side_pos.
    exists subject. split; [exact E|].
    split; [exact (resize_keeps_mode _ _ _ E)|].
    apply resize_size in E. injection E as Ew Eh. auto.
Qed.

End Square.

Lemma fixed_square_pos (square_size : option Z) (target : Z) :
  fixed_square square_size = Some target -> 0 < target.
Proof.
  destruct square_size as [s|]; [|discriminate]. cbn.
  destruct (Z.ltb_spec 0 s); [|now rewrite andb_false_r].
  destruct (negb (s =? 0)); [|discriminate]. cbn. intros [= <-]. exact H.
Qed.

Lemma fixed_square_some (target : Z) :
  0 < target -> fixed_square (Some target) = Some target.
Proof.
  intros Ht. cbn.
  destruct (Z.eqb_spec target 0); [lia|].
  now destruct (Z.ltb_spec 0 target); [|lia].
Qed.

Lemma composite_step_size `{K : Kernels} (out : Image) (bg_mode : string)
    (bg_rgba : Pixel) :
  size (composite_step out bg_mode bg_rgba) = size out.
Proof.
  unfold composite_step.
  destruct (bg_mode =? "white")%string; [reflexivity|].
  destruct (bg_mode =? "custom")%string; [|reflexivity].
  now destruct (alpha bg_rgba =? 255).
Qed.

Lemma cutout_size `{K : Kernels} (img : Image) (pad : Z) :
  size (cutout img pad)
  = if transposes (rgba img)
    then (height img + 2 * Z.max 0 pad, width img + 2 * Z.max 0 pad)
    else (width img + 2 * Z.max 0 pad, height img + 2 * Z.max 0 pad).
Proof.
  unfold cutout. rewrite pad_step_size. fields.
  rewrite rgba_width, rgba_height.
  now destruct (transposes (rgba img)).
Qed.

Lemma cutout_pos `{K : Kernels} (img : Image) (pad : Z) :
  0 < width img -> 0 < height img ->
  0 < width (cutout img pad) /\ 0 < height (cutout img pad).
Proof.
  intros Hw Hh. pose proof (cutout_size img pad) as S. unfold size in S.
  assert (Sw := f_equal fst S). assert (Sh := f_equal snd S).
  destruct (transposes (rgba img)); cbn [fst snd] in Sw, Sh; lia.
Qed.


(** The square step always returns, and returns an RGBA canvas of the side
    [canvas_side]. *)
Lemma square_step_square `{K : Kernels} (out : Image)
    (square_size : option Z) (no_upscale : bool) :
  0 < width out -> 0 < height out ->
  exists canvas,
    square_step out true square_size no_upscale = Ok canvas
    /\ Image.mode canvas = "RGBA"
    /\ size canvas
       = (canvas_side out square_size, canvas_side out square_size).
Proof.
  intros Hw Hh. unfold square_step, canvas_side.
  destruct (fixed_square square_size) as [target|] eqn:F.
  - apply fixed_square_pos in F.
    destruct (scale_subject_cases out target Hw Hh F no_upscale)
      as (subject & -> & _).
    cbn [bind]. eexists. split; [reflexivity|]. split; reflexivity.
  - eexists. split; [reflexivity|]. split; reflexivity.
Qed.

(** C5: whenever square mode is enabled, with a fixed side or with the
    longest side, [remove_bg_and_square] returns an image whose width equals
    its height. *)
Theorem square_mode_gives_square `{K : Kernels} (img : Image)
    (bg_mode : string) (bg_rgba : Pixel) (pad : Z) (square_size : option Z)
    (no_upscale : bool) :
  0 < width img -> 0 < height img ->
  exists out,
    remove_bg_and_square img bg_mode bg_rgba pad true square_size no_upscale
    = Ok out
    /\ width out = height out.
Proof.
  intros Hw Hh. rewrite remove_bg_and_square_steps.
  destruct (cutout_pos img pad Hw Hh) as [Cw Ch].
  destruct (square_step_square (cutout img pad) square_size no_upscale Cw Ch)
    as (canvas & -> & _ & Sz).
  cbn [bind]. eexists. split; [reflexivity|].
  pose proof (composite_step_size canvas bg_mode bg_rgba) as C.
  rewrite Sz in C. now injection C as -> ->.
Qed.

Lemma square_mode_gives_square_witness :
  exists out,
    remove_bg_and_square (H := nearest) photo "white" white 4 true (Some 512)
      true = Ok out
    /\ width out = height out.
Proof.
  apply (square_mode_gives_square (K := nearest) photo "white" white 4
           (Some 512) true); cbn; lia.
Defined.

Lemma scaled_side_le_target `{K : Kernels} (side target w h : Z) :
  0 < target -> 0 < side <= Z.max w h ->
  scaled_side side target w h <= target.
Proof.
  intros Ht Hs. unfold scaled_side.
  apply Z.max_lub; [lia|]. apply round_div_le; nia.
Qed.

Lemma scaled_side_le_side `{K : Kernels} (side target w h : Z) :
  0 < target < Z.max w h -> 0 < side ->
  scaled_side side target w h <= side.
Proof.
  intros Ht Hs. unfold scaled_side.
  apply Z.max_lub; [lia|]. apply round_div_le; nia.
Qed.

Lemma scaled_side_longest `{K : Kernels} (target w h : Z) :
  0 < w -> 0 < h -> 0 < target ->
  Z.max (scaled_side w target w h) (scaled_side h target w h) = target.
Proof.
  intros Hw Hh Ht. unfold scaled_side.
  destruct (Z.max_spec w h) as [[L ->]|[L ->]].
  - rewrite (Z.mul_comm h target), round_div_exact by lia.
    pose proof (round_div_le
                  (mul_half_up w (Py.min (Py.ratio target w)
                                    (Py.ratio target h)))
                  (w * target) h Hh target ltac:(nia)). lia.
  - rewrite (Z.mul_comm w target), round_div_exact by lia.
    pose proof (round_div_le
                  (mul_half_up h (Py.min (Py.ratio target w)
                                    (Py.ratio target h)))
                  (h * target) w Hw target ltac:(nia)). lia.
Qed.

Lemma round_div_within (up : bool) (n d : Z) :
  0 < d ->
  d * (Py.round_div up n d - 1) < n < d * (Py.round_div up n d + 1).
Proof. intros Hd. pose proof (round_div_near up n d Hd). nia. Qed.

Lemma scaled_side_near `{K : Kernels} (side target w h : Z) :
  0 < side -> 0 < target -> 0 < w -> 0 < h ->
  near_side (side * target) (Z.max w h) (scaled_side side target w h).
Proof.
  intros Hs Ht Hw Hh. unfold near_side, scaled_side.
  set (up := mul_half_up _ _).
  pose proof (round_div_within up (side * target) (Z.max w h) ltac:(lia)).
  pose proof (round_div_near up (side * target) (Z.max w h) ltac:(lia)).
  destruct (Z.max_spec 1 (Py.round_div up (side * target) (Z.max w h)))
    as [[L ->]|[L ->]]; nia.
Qed.

(** A subject that exceeds the square is resized, to the scaled sides. *)
Lemma scale_subject_exceeds `{K : Kernels} (out : Image) (target : Z)
    (no_upscale : bool) :
  0 < width out -> 0 < height out -> 0 < target ->
  target < Z.max (width out) (height out) ->
  exists subject,
    scale_subject out target no_upscale = Ok subject
    /\ PIL.resize out (width subject, height subject) = Ok subject
    /\ width subject
       = scaled_side (width out) target (width out) (height out)
    /\ height subject
       = scaled_side (height out) target (width out) (height out).
Proof.
  intros Hw Hh Ht Big.
  pose proof (scaled_side_longest target (width out) (height out) Hw Hh Ht)
    as Long.
  unfold scale_subject. unfold size at 1.
  destruct (truediv_pos target (width out) Hw)
    as (sw & -> & Nw & Dw & Esw).
  destruct (truediv_pos target (height out) Hh)
    as (sh & -> & Nh & Dh & Esh).
  cbn [bind].
  destruct (scale_fraction out target Hw Hh Ht sw sh Nw Dw Nh Dh)
    as [Ns Ds].
  set (scale := Py.min sw sh) in *.
  rewrite lt_one, Ns, Ds.
  destruct (Z.ltb_spec target (Z.max (width out) (height out))); [|lia].
  cbn [orb]. rewrite !round_scaled, Ns, Ds.
  subst scale sw sh.
  fold (scaled_side (width out) target (width out) (height out)).
  fold (scaled_side (height out) target (width out) (height out)).
  match goal with |- context [negb ?c] => destruct c eqn:Same end;
    cbn [negb].
  - apply andb_prop in Same as [Ew Eh]. apply Z.eqb_eq in Ew, Eh. lia.
  - destruct (resize_total out
                (scaled_side (width out) target (width out) (height out))
                (scaled_side (height out) target (width out) (height out)))
      as [subject E]; try apply scaled_side_pos.
    exists subject. split; [exact E|].
    pose proof (resize_size _ _ _ E) as Sz. unfold size in Sz.
    injection Sz as Ew Eh. rewrite Ew, Eh. now split.
Qed.

(** C3: with square mode on, a fixed positive [square_size] and
    [no_upscale] set, the subject (the padded cutout) is never enlarged: it
    is pasted as it is when it fits within [square_size]; when it exceeds
    [square_size] what is pasted is its Lanczos resize with the one scale
    [square_size / max(w, h)], the longer side exactly [square_size] and
    each side within a pixel of the scaled one, so that it fits.  What
    [remove_bg_and_square] returns is the [square_size] x [square_size]
    transparent canvas with that subject pasted at
    [((target - w) // 2, (target - h) // 2)], composited onto the
    background. *)
Theorem square_fixed_never_enlarges `{K : Kernels} (img : Image)
    (bg_mode : string) (bg_rgba : Pixel) (pad square_size : Z) :
  0 < width img -> 0 < height img -> 0 < square_size ->
  let out := cutout img pad in
  let longest := Z.max (width out) (height out) in
  exists subject,
    let canvas :=
      PIL.paste_mask (PIL.new "RGBA" (square_size, square_size) transparent)
        subject
        ((square_size - width subject) / 2,
         (square_size - height subject) / 2)
        subject in
    scale_subject out square_size true = Ok subject
    /\ (width out <= square_size -> height out <= square_size ->
        subject = out)
    /\ (square_size < width out \/ square_size < height out ->
        PIL.resize out (width subject, height subject) = Ok subject
        /\ Z.max (width subject) (height subject) = square_size
        /\ near_side (width out * square_size) longest (width subject)
        /\ near_side (height out * square_size) longest (height subject))
    /\ width subject <= square_size /\ height subject <= square_size
    /\ width subject <= width out /\ height subject <= height out
    /\ square_step out true (Some square_size) true = Ok canvas
    /\ remove_bg_and_square img bg_mode bg_rgba pad true (Some square_size)
         true
       = Ok (composite_step canvas bg_mode bg_rgba)
    /\ size (composite_step canvas bg_mode bg_rgba)
       = (square_size, square_size).
Proof.
  intros Hw Hh Ht out longest.
  destruct (cutout_pos img pad Hw Hh) as [Cw Ch]. fold out in Cw, Ch.
  assert (Paste : forall subject,
            scale_subject out square_size true = Ok subject ->
            square_step out true (Some square_size) true
            = Ok (PIL.paste_mask
                    (PIL.new "RGBA" (square_size, square_size) transparent)
                    subject
                    ((square_size - width subject) / 2,
                     (square_size - height subject) / 2)
                    subject)).
  { intros subject E. unfold square_step.
    now rewrite (fixed_square_some _ Ht), E. }
  destruct (Z.ltb_spec square_size longest) as [Big|Fits].
  - destruct (scale_subject_exceeds out square_size true Cw Ch Ht Big)
      as (subject & E & R & Ew & Eh).
    pose proof (scaled_side_longest square_size (width out) (height out)
                  Cw Ch Ht) as Long.
    pose proof (scaled_side_near (width out) square_size (width out)
                  (height out) Cw Ht Cw Ch) as Nw.
    pose proof (scaled_side_near (height out) square_size (width out)
                  (height out) Ch Ht Cw Ch) as Nh.
    pose proof (scaled_side_le_side (width out) square_size (width out)
                  (height out) ltac:(fold longest; lia) Cw) as Lw.
    pose proof (scaled_side_le_side (height out) square_size (width out)
                  (height out) ltac:(fold longest; lia) Ch) as Lh.
    rewrite <- Ew, <- Eh in Long. rewrite <- Ew in Nw, Lw.
    rewrite <- Eh in Nh, Lh.
    exists subject. cbn zeta.
    split; [exact E|]. split; [intros; subst longest; lia|].
    split; [intros _; exact (conj R (conj Long (conj Nw Nh)))|].
    split; [lia|]. split; [lia|]. split; [exact Lw|]. split; [exact Lh|].
    split; [exact (Paste subject E)|].
    split.
    + rewrite remove_bg_and_square_steps. fold out.
      now rewrite (Paste subject E).
    + now rewrite composite_step_size.
  - destruct (scale_subject_cases out square_size Cw Ch Ht true)
      as (subject & E & _ & C).
    unfold rescales in C. rewrite andb_false_r, orb_false_r in C.
    fold longest in C.
    destruct (Z.ltb_spec square_size longest); [lia|]. subst subject.
    exists out. cbn zeta.
    split; [exact E|]. split; [reflexivity|].
    split; [intros; subst longest; lia|].
    split; [subst longest; lia|]. split; [subst longest; lia|].
    split; [lia|]. split; [lia|].
    split; [exact (Paste out E)|].
    split.
    + rewrite remove_bg_and_square_steps. fold out.
      now rewrite (Paste out E).
    + now rewrite composite_step_size.
Qed.

Lemma square_fixed_never_enlarges_witness :
  exists subject,
    scale_subject (H := nearest) (cutout (H := nearest) photo 0) 512 true
    = Ok subject
    /\ Z.max (width subject) (height subject) = 512
    /\ remove_bg_and_square (H := nearest) photo "white" white 0 true
         (Some 512) true
       = Ok (composite_step (H := nearest)
               (PIL.paste_mask (H := nearest)
                  (PIL.new "RGBA" (512, 512) transparent) subject
                  ((512 - width subject) / 2, (512 - height subject) / 2)
                  subject)
               "white" white).
Proof.
  destruct (square_fixed_never_enlarges (K := nearest) photo "white" white
              0 512) as (subject & B); [cbn; lia ..|].
  cbn zeta in B. destruct B as (E & _ & Big & _ & _ & _ & _ & _ & R & _).
  exists subject. split; [exact E|].
  destruct Big as (_ & Long & _); [left; cbn; lia|].
  split; [exact Long | exact R].
Defined.

(* ------------------------------------------------------------------ *)
(** ** [remove_bg_and_square]: the background *)




(* ------------------------------------------------------------------ *)
(** ** [apply_brightness] *)

Lemma scale_level_scaled (f : Q) (c : Z) :
  (0 <= f)%Q -> 0 <= c -> scaled_level f c (scale_level f c).
Proof.
  intros Hf Hc. unfold scaled_level, scale_level.
  assert (P : 0 <= Qfloor (f * inject_Z c)).
  { change 0 with (Qfloor 0). apply Qfloor_resp_le.
    apply Qmult_le_0_compat; [exact Hf|].
    change 0%Q with (inject_Z 0). now rewrite <- Zle_Qle. }
  lia.
Qed.

#[export] Instance nearest_brightens : Brightens nearest.
Proof.
  intros f im x y Hf. unfold levels_in_range, scaled_pixel.
  cbn [brighten nearest].
  destruct (getpixel im x y) as [[[r g] b] a].
  intros (Hr & Hg & Hb & _).
  split; [apply scale_level_scaled; [exact Hf | lia]|].
  split; [apply scale_level_scaled; [exact Hf | lia]|].
  split; [apply scale_level_scaled; [exact Hf | lia] | reflexivity].
Qed.

(** C8: [apply_brightness] with factor 1.0 returns the image it was given,
    pixel for pixel; with any other factor (not negative) it returns the
    library's brightness enhancement at that factor: an image of the same
    mode and size in which every colour level of every pixel is the input's
    level times the factor, cut off at 255, to within the rounding of one
    level, and the alpha is the input's. *)
Theorem apply_brightness_identity `{K : Kernels} `{B : !Brightens K}
    (img : Image) (factor : Q) :
  apply_brightness img 1 = img
  /\ (factor == 1 -> apply_brightness img factor = img)%Q
  /\ (~ factor == 1 -> 0 <= factor ->
      apply_brightness img factor = PIL.enhance img factor
      /\ Image.mode (apply_brightness img factor) = Image.mode img
      /\ size (apply_brightness img factor) = size img
      /\ forall x y,
           levels_in_range (getpixel img x y) ->
           scaled_pixel factor (getpixel img x y)
             (getpixel (apply_brightness img factor) x y))%Q.
Proof.
  split; [reflexivity|]. split.
  - intros E. unfold apply_brightness.
    now rewrite (proj2 (Qeq_bool_iff factor 1) E).
  - intros N Pos. unfold apply_brightness.
    destruct (Qeq_bool factor 1) eqn:E.
    + apply Qeq_bool_iff in E. contradiction.
    + split; [reflexivity|]. split; [reflexivity|]. split; [reflexivity|].
      intros x y V. cbn [PIL.enhance getpixel Image.getpixel].
      now apply brighten_scales.
Qed.

Lemma apply_brightness_identity_witness :
  apply_brightness (H := nearest) photo (2 # 2) = photo
  /\ scaled_pixel (5 # 4) (100, 200, 7, 255)
       (getpixel (apply_brightness (H := nearest) photo (5 # 4)) 100 200).
Proof.
  split.
  - destruct (apply_brightness_identity (K := nearest) photo (2 # 2))
      as (_ & One & _).
    apply One. reflexivity.
  - destruct (apply_brightness_identity (K := nearest) photo (5 # 4))
      as (_ & _ & Other).
    destruct Other as (_ & _ & _ & Px); [discriminate | discriminate |].
    apply (Px 100 200). cbn. lia.
Defined.

(* ------------------------------------------------------------------ *)
(** ** [process_one]: the selected operation *)

Lemma open_lazy (d : Disk) (p : Path) (im : Image) :
  open d p = Ok im -> Image.lazy im = true.
Proof.
  unfold open. destruct (lookup p (files d)) as [[pic|why]|];
    [|discriminate|discriminate].
  now intros [= <-].
Qed.

(** [process_one] on a file it can open: the selected operation on [base],
    then the saving. *)
Lemma process_one_delivers `{K : Kernels} (d : Disk) (in_path rel : Path)
    (in_root out_root : list string) (a : Args) (im : Image) :
  relative_to in_path in_root = Ok rel ->
  open d in_path = Ok im ->
  process_one d in_path in_root out_root a
  = deliver d in_path (joinpath out_root rel) (transform (base_of im) a).
Proof.
  intros R O. unfold process_one, attempt, deliver. rewrite R, O.
  cbn [bind]. fold (base_of im).
  change (with_suffix (joinpath out_root rel) (suffix rel))
    with (joinpath out_root rel).
  destruct (transform (base_of im) a) as [out|e]; [|reflexivity].
  cbn [bind].
  destruct (PIL.load_closed out) as [saved|e]; [|reflexivity].
  cbn [bind].
  now destruct (save_image d saved (joinpath out_root rel)).
Qed.

(** C6: for every input file that opens, [process_one] with 'do_all' saves
    what the three transforms give in the fixed order background removal and
    compositing, then brightness, then resize, the resize only when resizing
    is enabled; with a single operation selected it saves what that
    operation's transform alone gives.  An exception of a transform or of the
    saving is what it reports. *)
Theorem transform_order `{K : Kernels} (d : Disk) (in_path rel : Path)
    (in_root out_root : list string) (a : Args) (im : Image) :
  relative_to in_path in_root = Ok rel ->
  open d in_path = Ok im ->
  let base := base_of im in
  let out_path := joinpath out_root rel in
  (operation a = "do_all" ->
   process_one d in_path in_root out_root a
   = deliver d in_path out_path
       (out <- remove_bg_and_square base (bg_mode a) (bg_rgba a) (pad a)
                 (square a) (square_size a) (no_upscale a) ;;
        if enable_resize a
        then resize_image (apply_brightness out (brightness a)) true
               (target_w a) (target_h a) (resize_mode a) (bg_mode a)
               (bg_rgba a)
        else Ok (apply_brightness out (brightness a))))
  /\ (operation a = "bg_only" ->
      process_one d in_path in_root out_root a
      = deliver d in_path out_path
          (remove_bg_and_square base (bg_mode a) (bg_rgba a) (pad a)
             (square a) (square_size a) (no_upscale a)))
  /\ (operation a = "resize_only" ->
      process_one d in_path in_root out_root a
      = deliver d in_path out_path
          (resize_image base true (target_w a) (target_h a) (resize_mode a)
             (bg_mode a) (bg_rgba a)))
  /\ (operation a = "brightness_only" ->
      process_one d in_path in_root out_root a
      = deliver d in_path out_path
          (Ok (apply_brightness base (brightness a)))).
Proof.
  intros R O base out_path.
  rewrite (process_one_delivers d in_path rel in_root out_root a im R O).
  fold base out_path. unfold transform.
  split; [|split; [|split]]; intros ->; reflexivity.
Qed.

Lemma transform_order_witness :
  process_one (H := nearest) folder cat_jpg ["in"] ["out"] all_on
  = deliver (H := nearest) folder cat_jpg
      {| parts := ["out"]; stem := "cat"; suffix := ".jpg" |}
      (out <- remove_bg_and_square (H := nearest)
                (opened photo) "white" white 4 false None true ;;
       resize_image (H := nearest)
         (apply_brightness (H := nearest) out (5 # 4)) true 512 512
         "keep_aspect_crop" "white" white).
Proof.
  destruct (transform_order (K := nearest) folder cat_jpg
              {| parts := []; stem := "cat"; suffix := ".jpg" |}
              ["in"] ["out"] all_on (opened photo) eq_refl eq_refl)
    as (All & _).
  apply All. reflexivity.
Defined.

(* ------------------------------------------------------------------ *)
(** ** [save_image] *)

Lemma list_eqb_refl (xs : list string) : list_eqb xs xs = true.
Proof.
  induction xs as [|x xs IH]; [reflexivity|].
  cbn. now rewrite String.eqb_refl.
Qed.

Lemma Path_eqb_refl (p : Path) : Path_eqb p p = true.
Proof.
  unfold Path_eqb. now rewrite list_eqb_refl, !String.eqb_refl.
Qed.

Lemma save_records (d d' : Disk) (im : Image) (p : Path) :
  save d im p = Ok d' -> lookup p (files d') = Some (Picture im).
Proof.
  unfold save. destruct (readonly d p); [discriminate|].
  intros [= <-]. cbn. now rewrite Path_eqb_refl.
Qed.

(** What a successful [attempt] has done, step by step. *)
Lemma attempt_inv `{K : Kernels} (d d' : Disk) (in_path written : Path)
    (in_root out_root : list string) (a : Args) :
  attempt d in_path in_root out_root a = Ok (d', written) ->
  exists rel im out saved,
    relative_to in_path in_root = Ok rel
    /\ open d in_path = Ok im
    /\ transform (base_of im) a = Ok out
    /\ PIL.load_closed out = Ok saved
    /\ save_image d saved (joinpath out_root rel) = Ok d'
    /\ written = joinpath out_root rel.
Proof.
  intros E. unfold attempt in E.
  destruct (relative_to in_path in_root) as [rel|] eqn:R; [|discriminate].
  cbn [bind] in E.
  destruct (open d in_path) as [im|] eqn:O; [|discriminate].
  cbn [bind] in E. fold (base_of im) in E.
  destruct (transform (base_of im) a) as [out|] eqn:T; [|discriminate].
  cbn [bind] in E.
  destruct (PIL.load_closed out) as [saved|] eqn:L; [|discriminate].
  cbn [bind] in E.
  destruct (save_image d saved _) as [d1|] eqn:S; [|discriminate].
  cbn [bind] in E. injection E as <- <-.
  exists rel, im, out, saved.
  split; [reflexivity|]. split; [reflexivity|]. split; [exact T|].
  split; [exact L|]. split; [exact S | reflexivity].
Qed.

(** C7: [save_image] chooses the container from the mode of the result.  An
    RGBA image keeps its extension when it is (in lower case) .png or .webp
    and gets .png otherwise; any other image keeps its extension when it is
    .jpg, .jpeg, .png or .webp and gets .jpg otherwise.  Directory and stem
    are kept, the image is written at the path so chosen, the path handed to
    [save_image] by [process_one] is the relative path mirrored under the
    output root, and an RGBA image always lands on an alpha-capable
    extension. *)
Theorem save_image_container `{K : Kernels} (d : Disk) (out_img : Image)
    (out_path : Path) :
  let p := save_path out_img out_path in
  parts p = parts out_path /\ stem p = stem out_path
  /\ (Image.mode out_img = "RGBA" ->
      suffix p
      = if mem (lower (suffix out_path)) alpha_capable
        then suffix out_path else ".png")
  /\ (Image.mode out_img <> "RGBA" ->
      suffix p
      = if mem (lower (suffix out_path)) kept_opaque
        then suffix out_path else ".jpg")
  /\ (Image.mode out_img = "RGBA" ->
      mem (lower (suffix p)) alpha_capable = true)
  /\ (forall d', save_image d out_img out_path = Ok d' ->
                 lookup p (files d') = Some (Picture out_img))
  /\ (forall in_path in_root out_root a d' written,
        attempt d in_path in_root out_root a = Ok (d', written) ->
        exists rel out,
          relative_to in_path in_root = Ok rel
          /\ written = joinpath out_root rel
          /\ lookup (save_path out written) (files d') = Some (Picture out)).
Proof.
  intros p. subst p. unfold save_path, alpha_capable, kept_opaque.
  split; [|split; [|split; [|split; [|split; [|split]]]]].
  - destruct (Image.mode out_img =? "RGBA")%string;
      match goal with |- context [negb ?c] => destruct c end; reflexivity.
  - destruct (Image.mode out_img =? "RGBA")%string;
      match goal with |- context [negb ?c] => destruct c end; reflexivity.
  - intros ->. cbn [String.eqb Ascii.eqb Bool.eqb andb].
    now destruct (mem _ _).
  - intros N. apply String.eqb_neq in N. rewrite N.
    now destruct (mem _ _).
  - intros ->. cbn [String.eqb Ascii.eqb Bool.eqb andb].
    destruct (mem (lower (suffix out_path)) _) eqn:E; [exact E|reflexivity].
  - intros d'. apply save_records.
  - intros in_path in_root out_root a d' written E.
    apply attempt_inv in E as (rel & im & out & saved & R & _ & _ & _ & S & ->).
    exists rel, saved. split; [exact R|]. split; [reflexivity|].
    exact (save_records _ _ _ _ S).
Qed.

Lemma save_image_container_witness :
  suffix (save_path icon scan_bmp) = ".png"
  /\ suffix (save_path photo scan_bmp) = ".jpg".
Proof.
  destruct (save_image_container (K := nearest)
              {| files := []; readonly := fun _ => false |} icon scan_bmp)
    as (_ & _ & A & _).
  destruct (save_image_container (K := nearest)
              {| files := []; readonly := fun _ => false |} photo scan_bmp)
    as (_ & _ & _ & B & _).
  split; [apply A; reflexivity | apply B; discriminate].
Defined.

(* ------------------------------------------------------------------ *)
(** ** Failures in the batch loop *)

Section Batch.

Context `{K : Kernels}.
Variables (in_root out_root : list string) (a : Args).

Lemma process_one_caught (d : Disk) (in_path : Path) (e : exn) :
  attempt d in_path in_root out_root a = Raise e ->
  process_one d in_path in_root out_root a
  = (d, (in_path, empty_path, false, str e)).
Proof. unfold process_one. now intros ->. Qed.

Lemma loop_body_failure (r : Run) (img_path : Path) (e : exn) :
  attempt (disk r) img_path in_root out_root a = Raise e ->
  loop_body in_root out_root a r img_path
  = record_failure r img_path (str e).
Proof.
  intros E. unfold loop_body. now rewrite (process_one_caught _ _ _ E).
Qed.

Lemma loop_body_accounts (r : Run) (img_path : Path) :
  accounted (loop_body in_root out_root a r img_path) = accounted r + 1.
Proof.
  unfold loop_body, process_one, accounted.
  destruct (attempt (disk r) img_path in_root out_root a) as [[d p]|e];
    cbn [successes failures].
  - lia.
  - rewrite length_app. cbn [length]. lia.
Qed.

Lemma batch_app (xs ys : list Path) (r : Run) :
  batch in_root out_root a (xs ++ ys) r
  = batch in_root out_root a ys (batch in_root out_root a xs r).
Proof. unfold batch. apply fold_left_app. Qed.

Lemma batch_accounts (images : list Path) (r : Run) :
  accounted (batch in_root out_root a images r)
  = accounted r + Z.of_nat (length images).
Proof.
  revert r. induction images as [|p images IH]; intros r.
  - cbn. lia.
  - change (batch in_root out_root a (p :: images) r)
      with (batch in_root out_root a images
              (loop_body in_root out_root a r p)).
    rewrite IH, loop_body_accounts. cbn [length]. lia.
Qed.

(** Failures are only ever appended: what was recorded stays recorded. *)
Lemma batch_keeps_failures (images : list Path) (r : Run) :
  exists later,
    failures (batch in_root out_root a images r)
    = (failures r ++ later)%list.
Proof.
  revert r. induction images as [|p images IH]; intros r.
  - exists []. cbn. now rewrite app_nil_r.
  - change (batch in_root out_root a (p :: images) r)
      with (batch in_root out_root a images
              (loop_body in_root out_root a r p)).
    destruct (IH (loop_body in_root out_root a r p)) as [later ->].
    unfold loop_body, process_one.
    destruct (attempt (disk r) p in_root out_root a) as [[d q]|e];
      cbn [failures].
    + now exists later.
    + exists ((p, str e) :: later). now rewrite <- app_assoc.
Qed.

End Batch.

(** C2: an exception raised while a file is opened, transformed or saved is
    caught by [process_one], which returns the input path, a success flag
    [False] and the exception's text; the batch loop appends the path and
    the text to its failures, leaves the disk and the success count as they
    were, and goes on with the files that follow, so that every file ends up
    counted as a success or as a failure and the failure stays recorded. *)
Theorem failure_is_recorded_and_batch_continues `{K : Kernels}
    (in_root out_root : list string) (a : Args) (before after : list Path)
    (img_path : Path) (r : Run) (e : exn) :
  let r1 := batch in_root out_root a before r in
  let r2 := batch in_root out_root a (before ++ img_path :: after) r in
  attempt (disk r1) img_path in_root out_root a = Raise e ->
  process_one (disk r1) img_path in_root out_root a
  = (disk r1, (img_path, empty_path, false, str e))
  /\ r2 = batch in_root out_root a after
            (record_failure r1 img_path (str e))
  /\ (exists later,
        failures r2 = (failures r1 ++ (img_path, str e) :: later)%list)
  /\ accounted r2
     = accounted r + Z.of_nat (length (before ++ img_path :: after)%list).
Proof.
  intros r1 r2 E. subst r2.
  split; [exact (process_one_caught in_root out_root a _ _ _ E)|].
  assert (Step : batch in_root out_root a (before ++ img_path :: after) r
                 = batch in_root out_root a after
                     (record_failure r1 img_path (str e))).
  { rewrite batch_app. fold r1.
    change (batch in_root out_root a (img_path :: after) r1)
      with (batch in_root out_root a after
              (loop_body in_root out_root a r1 img_path)).
    now rewrite (loop_body_failure in_root out_root a r1 img_path e E). }
  split; [exact Step|]. split.
  - rewrite Step.
    destruct (batch_keeps_failures in_root out_root a after
                (record_failure r1 img_path (str e))) as [later ->].
    exists later. cbn [record_failure failures]. now rewrite <- app_assoc.
  - apply batch_accounts.
Qed.

Lemma failure_is_recorded_and_batch_continues_witness :
  let r2 := batch (H := nearest) ["in"] ["out"] brightness_run
              [cat_jpg; broken_png; dog_jpg] (start folder) in
  (exists later,
     failures r2
     = ([] ++ (broken_png, "cannot identify image file") :: later)%list)
  /\ accounted r2 = 3.
Proof.
  destruct (failure_is_recorded_and_batch_continues (K := nearest)
              ["in"] ["out"] brightness_run [cat_jpg] [dog_jpg] broken_png
              (start folder) (OSError "cannot identify image file"))
    as (_ & _ & F & A); [reflexivity|].
  split; [exact F | exact A].
Defined.


(* ------------------------------------------------------------------ *)
(** ** [hex_to_rgb] *)

Lemma hex_digit_plain (c : ascii) (d : Z) :
  hex_digit c = Some d ->
  is_space c = false /\ Ascii.eqb c "#" = false /\ 0 <= d < 16.
Proof.
  destruct c as [[] [] [] [] [] [] [] []]; intros E; vm_compute in E;
    try discriminate E; injection E as <-;
    (split; [reflexivity | split; [reflexivity | lia]]).
Qed.

Lemma all_hex_cons (c : ascii) (s : string) :
  all_hex (String c s) = true ->
  exists d, hex_digit c = Some d /\ all_hex s = true.
Proof. cbn. destruct (hex_digit c) as [d|]; [eauto | discriminate]. Qed.

Lemma lstrip_hex (s : string) : all_hex s = true -> lstrip s = s.
Proof.
  destruct s as [|c s]; [reflexivity|].
  intros H. apply all_hex_cons in H as (d & Hd & _).
  apply hex_digit_plain in Hd as (Sp & _). cbn. now rewrite Sp.
Qed.

Lemma rstrip_hex (s : string) : all_hex s = true -> rstrip s = s.
Proof.
  induction s as [|c s IH]; [reflexivity|].
  intros H. apply all_hex_cons in H as (d & Hd & Hs).
  apply hex_digit_plain in Hd as (Sp & _).
  cbn [rstrip]. rewrite (IH Hs).
  destruct s; [now rewrite Sp | reflexivity].
Qed.

Lemma strip_hex (s : string) : all_hex s = true -> strip s = s.
Proof.
  intros H. unfold strip. now rewrite (lstrip_hex s H), (rstrip_hex s H).
Qed.

(** A colour as the picker writes it: [#] and then hexadecimal digits. *)
Lemma strip_colour (h : string) :
  all_hex h = true -> lstrip_char "#" (strip (String "#" h)) = h.
Proof.
  intros H. unfold strip. cbn [lstrip]. change (is_space "#") with false.
  cbn [rstrip]. rewrite (rstrip_hex h H).
  destruct h as [|c h]; [reflexivity|].
  apply all_hex_cons in H as (d & Hd & _).
  apply hex_digit_plain in Hd as (_ & Hash & _).
  cbn. now rewrite Hash.
Qed.

(** On digits alone [int(s, 16)] is the positional value. *)
Lemma int16_hex (c : ascii) (s : string) :
  all_hex (String c s) = true ->
  exists v, hex_value 0 (String c s) = Some v
            /\ int16 (String c s) = Ok v.
Proof.
  intros H. unfold int16. rewrite (strip_hex _ H).
  assert (V : exists v, hex_value 0 (String c s) = Some v).
  { clear -H. generalize 0 as acc. revert H. generalize (String c s) as t.
    induction t as [|a t IH]; intros H acc; [cbn; eauto|].
    apply all_hex_cons in H as (d & Hd & Ht).
    cbn. rewrite Hd. apply IH, Ht. }
  destruct V as [v V]. exists v. split; [exact V|].
  apply all_hex_cons in H as (d & Hd & _).
  destruct c as [[] [] [] [] [] [] [] []]; vm_compute in Hd;
    try discriminate Hd; cbv iota; rewrite V; now rewrite Z.mul_1_l.
Qed.

Lemma int16_pair (c1 c2 : ascii) (d1 d2 : Z) :
  hex_digit c1 = Some d1 -> hex_digit c2 = Some d2 ->
  int16 (String c1 (String c2 "")) = Ok (16 * d1 + d2).
Proof.
  intros H1 H2.
  destruct (int16_hex c1 (String c2 "")) as (v & V & ->).
  { cbn. now rewrite H1, H2. }
  cbn in V. rewrite H1, H2 in V. injection V as <-. f_equal; lia.
Qed.

Lemma int16_single (c : ascii) (d : Z) :
  hex_digit c = Some d -> int16 (String c "") = Ok d.
Proof.
  intros H1.
  destruct (int16_hex c "") as (v & V & ->).
  { cbn. now rewrite H1. }
  cbn in V. rewrite H1 in V. injection V as <-. f_equal; lia.
Qed.

Lemma substring_none (s : string) : substring 0 0 s = "".
Proof. now destruct s. Qed.

Lemma hex_to_rgb_six (c1 c2 c3 c4 c5 c6 : ascii) (d1 d2 d3 d4 d5 d6 : Z)
    (rest : string) :
  hex_digit c1 = Some d1 -> hex_digit c2 = Some d2 ->
  hex_digit c3 = Some d3 -> hex_digit c4 = Some d4 ->
  hex_digit c5 = Some d5 -> hex_digit c6 = Some d6 ->
  all_hex rest = true ->
  hex_to_rgb
    (String "#" (String c1 (String c2 (String c3 (String c4 (String c5
       (String c6 rest)))))))
  = Ok (16 * d1 + d2, 16 * d3 + d4, 16 * d5 + d6).
Proof.
  intros H1 H2 H3 H4 H5 H6 Hr.
  unfold hex_to_rgb. rewrite strip_colour.
  - cbn [String.length Nat.eqb substring]. rewrite substring_none.
    rewrite (int16_pair c1 c2 d1 d2 H1 H2),
      (int16_pair c3 c4 d3 d4 H3 H4), (int16_pair c5 c6 d5 d6 H5 H6).
    reflexivity.
  - cbn. now rewrite H1, H2, H3, H4, H5, H6.
Qed.

(** X1: a colour written as [#] and six hexadecimal digits, upper or lower
    case, parses to the three bytes the digit pairs spell, each within 0..255;
    digits after the sixth (an alpha pair, say) are ignored. *)
Theorem hex_to_rgb_six_digits (c1 c2 c3 c4 c5 c6 : ascii)
    (d1 d2 d3 d4 d5 d6 : Z) (rest : string) :
  hex_digit c1 = Some d1 -> hex_digit c2 = Some d2 ->
  hex_digit c3 = Some d3 -> hex_digit c4 = Some d4 ->
  hex_digit c5 = Some d5 -> hex_digit c6 = Some d6 ->
  all_hex rest = true ->
  hex_to_rgb
    (String "#" (String c1 (String c2 (String c3 (String c4 (String c5
       (String c6 rest)))))))
  = Ok (16 * d1 + d2, 16 * d3 + d4, 16 * d5 + d6)
  /\ 0 <= 16 * d1 + d2 <= 255 /\ 0 <= 16 * d3 + d4 <= 255
  /\ 0 <= 16 * d5 + d6 <= 255.
Proof.
  intros H1 H2 H3 H4 H5 H6 Hr. split.
  - now apply hex_to_rgb_six.
  - apply hex_digit_plain in H1, H2, H3, H4, H5, H6. lia.
Qed.

Lemma hex_to_rgb_six_digits_witness :
  hex_to_rgb "#fF8000cc" = Ok (255, 128, 0).
Proof.
  apply (hex_to_rgb_six_digits "f" "F" "8" "0" "0" "0" 15 15 8 0 0 0 "cc");
    reflexivity.
Defined.

(** X2: the three-digit shorthand [#abc] is read as [#aabbcc]: every digit is
    doubled, so each component is 17 times its digit. *)
Theorem hex_to_rgb_shorthand (c1 c2 c3 : ascii) (d1 d2 d3 : Z) :
  hex_digit c1 = Some d1 -> hex_digit c2 = Some d2 ->
  hex_digit c3 = Some d3 ->
  hex_to_rgb (String "#" (String c1 (String c2 (String c3 ""))))
  = Ok (17 * d1, 17 * d2, 17 * d3)
  /\ hex_to_rgb (String "#" (String c1 (String c2 (String c3 ""))))
     = hex_to_rgb
         (String "#" (String c1 (String c1 (String c2 (String c2 (String c3
            (String c3 ""))))))).
Proof.
  intros H1 H2 H3.
  assert (T : forall x, 16 * x + x = 17 * x) by (intros; lia).
  assert (Short :
    hex_to_rgb (String "#" (String c1 (String c2 (String c3 ""))))
    = Ok (17 * d1, 17 * d2, 17 * d3)).
  { unfold hex_to_rgb. rewrite strip_colour.
    - cbn [String.length Nat.eqb double substring].
      rewrite (int16_pair c1 c1 d1 d1 H1 H1),
        (int16_pair c2 c2 d2 d2 H2 H2), (int16_pair c3 c3 d3 d3 H3 H3).
      cbn [bind]. now rewrite !T.
    - cbn. now rewrite H1, H2, H3. }
  split; [exact Short|]. rewrite Short.
  rewrite (hex_to_rgb_six c1 c1 c2 c2 c3 c3 d1 d1 d2 d2 d3 d3 ""
             H1 H1 H2 H2 H3 H3 eq_refl).
  now rewrite !T.
Qed.

Lemma hex_to_rgb_shorthand_witness :
  hex_to_rgb "#fa0" = Ok (255, 170, 0)
  /\ hex_to_rgb "#fa0" = hex_to_rgb "#ffaa00".
Proof.
  apply (hex_to_rgb_shorthand "f" "a" "0" 15 10 0); reflexivity.
Defined.

(** X3: on a colour of [#] and hexadecimal digits [hex_to_rgb] returns
    exactly when there are three digits or at least five; with none, one, two
    or four digits a slice is empty and [int] raises [ValueError] on the
    literal ['']; with five digits it returns, reading the lone fifth digit
    as the blue component. *)
Theorem hex_to_rgb_digit_count (h : string) :
  all_hex h = true ->
  ((exists rgb, hex_to_rgb (String "#" h) = Ok rgb)
   <-> (String.length h = 3 \/ 5 <= String.length h)%nat)
  /\ ((String.length h < 3 \/ String.length h = 4)%nat ->
      hex_to_rgb (String "#" h)
      = Raise (ValueError "invalid literal for int() with base 16: ''"))
  /\ (forall c1 c2 c3 c4 c5 d1 d2 d3 d4 d5,
        h = String c1 (String c2 (String c3 (String c4 (String c5 "")))) ->
        hex_digit c1 = Some d1 -> hex_digit c2 = Some d2 ->
        hex_digit c3 = Some d3 -> hex_digit c4 = Some d4 ->
        hex_digit c5 = Some d5 ->
        hex_to_rgb (String "#" h) = Ok (16 * d1 + d2, 16 * d3 + d4, d5)).
Proof.
  intros H.
  assert (Five : forall c1 c2 c3 c4 c5 d1 d2 d3 d4 d5,
            h = String c1 (String c2 (String c3 (String c4 (String c5 ""))))
            -> hex_digit c1 = Some d1 -> hex_digit c2 = Some d2 ->
            hex_digit c3 = Some d3 -> hex_digit c4 = Some d4 ->
            hex_digit c5 = Some d5 ->
            hex_to_rgb (String "#" h) = Ok (16 * d1 + d2, 16 * d3 + d4, d5)).
  { intros c1 c2 c3 c4 c5 d1 d2 d3 d4 d5 -> H1 H2 H3 H4 H5.
    unfold hex_to_rgb. rewrite (strip_colour _ H).
    cbn [String.length Nat.eqb substring].
    now rewrite (int16_pair c1 c2 d1 d2 H1 H2),
      (int16_pair c3 c4 d3 d4 H3 H4), (int16_single c5 d5 H5). }
  assert (Count :
    ((exists rgb, hex_to_rgb (String "#" h) = Ok rgb)
     <-> (String.length h = 3 \/ 5 <= String.length h)%nat)
    /\ ((String.length h < 3 \/ String.length h = 4)%nat ->
        hex_to_rgb (String "#" h)
        = Raise (ValueError "invalid literal for int() with base 16: ''"))).
  { clear Five.
    assert (E : hex_to_rgb (String "#" h)
                = (let k :=
                     if (String.length h =? 3)%nat then double h else h in
                   r <- int16 (substring 0 2 k) ;;
                   g <- int16 (substring 2 2 k) ;;
                   b <- int16 (substring 4 2 k) ;;
                   Ok (r, g, b))).
    { unfold hex_to_rgb. now rewrite (strip_colour h H). }
    rewrite E. clear E.
    destruct h as [|c1 h]; [split; [split|]; cbn; try lia; try reflexivity;
                            intros [rgb R]; discriminate R|].
    apply all_hex_cons in H as (d1 & H1 & H).
    destruct h as [|c2 h].
    { cbn [String.length Nat.eqb substring].
      rewrite (int16_single c1 d1 H1).
      split; [split|]; cbn; try lia; try reflexivity.
      intros [rgb R]; discriminate R. }
    apply all_hex_cons in H as (d2 & H2 & H).
    destruct h as [|c3 h].
    { cbn [String.length Nat.eqb substring].
      rewrite (int16_pair c1 c2 d1 d2 H1 H2).
      split; [split|]; cbn; try lia; try reflexivity.
      intros [rgb R]; discriminate R. }
    apply all_hex_cons in H as (d3 & H3 & H).
    destruct h as [|c4 h].
    { cbn [String.length Nat.eqb double substring].
      rewrite (int16_pair c1 c1 d1 d1 H1 H1), (int16_pair c2 c2 d2 d2 H2 H2),
        (int16_pair c3 c3 d3 d3 H3 H3).
      split; [split|]; cbn; try lia; eauto. }
    apply all_hex_cons in H as (d4 & H4 & H).
    destruct h as [|c5 h].
    { cbn [String.length Nat.eqb substring].
      rewrite (int16_pair c1 c2 d1 d2 H1 H2), (int16_pair c3 c4 d3 d4 H3 H4).
      split; [split|]; cbn; try lia; try reflexivity.
      intros [rgb R]; discriminate R. }
    apply all_hex_cons in H as (d5 & H5 & H).
    destruct h as [|c6 h].
    { cbn [String.length Nat.eqb substring].
      rewrite (int16_pair c1 c2 d1 d2 H1 H2), (int16_pair c3 c4 d3 d4 H3 H4),
        (int16_single c5 d5 H5).
      split; [split|]; cbn; try lia; eauto. }
    apply all_hex_cons in H as (d6 & H6 & H).
    cbn [String.length Nat.eqb substring]. rewrite substring_none.
    rewrite (int16_pair c1 c2 d1 d2 H1 H2), (int16_pair c3 c4 d3 d4 H3 H4),
      (int16_pair c5 c6 d5 d6 H5 H6).
    split; [split|]; cbn; try lia; eauto.
  }
  destruct Count as [Iff Short]. split; [exact Iff|]. split; assumption.
Qed.

Lemma hex_to_rgb_digit_count_witness :
  hex_to_rgb "#12345" = Ok (18, 52, 5)
  /\ hex_to_rgb "#1234"
     = Raise (ValueError "invalid literal for int() with base 16: ''").
Proof.
  destruct (hex_to_rgb_digit_count "12345" eq_refl) as (_ & _ & Five).
  destruct (hex_to_rgb_digit_count "1234" eq_refl) as (_ & Short & _).
  split.
  - apply (Five "1"%char "2"%char "3"%char "4"%char "5"%char 1 2 3 4 5);
      reflexivity.
  - apply Short. right. reflexivity.
Defined.

(* ------------------------------------------------------------------ *)
(** ** [list_images] and the extensions of the files written *)

Lemma lower_ascii_idem (c : ascii) :
  lower_ascii (lower_ascii c) = lower_ascii c.
Proof. destruct c as [[] [] [] [] [] [] [] []]; reflexivity. Qed.

Lemma lower_idem (s : string) : lower (lower s) = lower s.
Proof.
  induction s as [|c s IH]; [reflexivity|].
  cbn. now rewrite lower_ascii_idem, IH.
Qed.

(** A lower-cased string is never a string that lower-casing changes. *)
Lemma lower_misses (s e : string) :
  lower e <> e -> (lower s =? e)%string = false.
Proof.
  intros N. apply String.eqb_neq. intros E.
  apply N. rewrite <- E. apply lower_idem.
Qed.

Lemma valid_exts_lower (s : string) :
  mem (lower s) VALID_EXTS = mem (lower s) supported.
Proof.
  unfold mem, VALID_EXTS, supported. cbn [existsb].
  rewrite (lower_misses s ".JPG"), (lower_misses s ".JPEG"),
    (lower_misses s ".PNG"), (lower_misses s ".WEBP"),
    (lower_misses s ".BMP"), (lower_misses s ".TIFF"),
    (lower_misses s ".TIF") by (cbn; discriminate).
  now rewrite !orb_false_r.
Qed.

(** X4: [list_images] returns, in the order of the scan, exactly the scanned
    paths whose suffix is, in any letter case, one of .jpg .jpeg .png .webp
    .bmp .tiff .tif (the upper-case entries of [VALID_EXTS] never decide
    anything); it returns nothing when the root does not exist or the scan
    raises. *)
Theorem list_images_supported (root_exists : bool)
    (scan : result (list Path)) (p : Path) :
  (In p (list_images root_exists scan)
   <-> root_exists = true
       /\ (exists entries, scan = Ok entries /\ In p entries)
       /\ mem (lower (suffix p)) supported = true)
  /\ (forall entries,
        list_images true (Ok entries)
        = filter (fun q => mem (lower (suffix q)) supported) entries)
  /\ list_images false scan = []
  /\ (forall e, list_images root_exists (Raise e) = []).
Proof.
  assert (F : forall entries,
            list_images true (Ok entries)
            = filter (fun q => mem (lower (suffix q)) supported) entries).
  { intros entries. unfold list_images. cbn [negb].
    apply filter_ext. intros q. apply valid_exts_lower. }
  split; [|split; [exact F|split]].
  - destruct root_exists;
      [|cbn; split; [contradiction | intros [D _]; discriminate D]].
    destruct scan as [entries|e].
    + rewrite F, filter_In. split.
      * intros [I M]. split; [reflexivity|]. split; [eauto | exact M].
      * intros (_ & (entries' & [= <-] & I) & M). now split.
    + cbn. split; [contradiction|].
      intros (_ & (entries & D & _) & _). discriminate D.
  - reflexivity.
  - intros e. unfold list_images. now destruct root_exists.
Qed.

Lemma mem_cases (s : string) (xs : list string) :
  mem s xs = true -> In s xs.
Proof.
  unfold mem. rewrite existsb_exists. intros (x & I & E).
  apply String.eqb_eq in E. now subst.
Qed.

Lemma list_images_supported_witness :
  In snapshot_JPG (list_images true (Ok [notes_txt; snapshot_JPG])).
Proof.
  apply (list_images_supported true (Ok [notes_txt; snapshot_JPG])
           snapshot_JPG).
  split; [reflexivity|]. split; [|reflexivity].
  exists [notes_txt; snapshot_JPG]. split; [reflexivity|]. right. now left.
Defined.

(** X5: whatever the image and the path, [save_image] writes under an
    extension that is, in lower case, .jpg, .jpeg, .png or .webp; choosing the
    path again changes nothing; and a .bmp, .tiff or .tif path is always
    rewritten, to .png for an RGBA image and to .jpg for any other. *)
Theorem save_path_formats (out_img : Image) (out_path : Path) :
  mem (lower (suffix (save_path out_img out_path))) kept_opaque = true
  /\ save_path out_img (save_path out_img out_path)
     = save_path out_img out_path
  /\ (mem (lower (suffix out_path)) [".bmp"; ".tiff"; ".tif"] = true ->
      suffix (save_path out_img out_path)
      = if (Image.mode out_img =? "RGBA")%string then ".png" else ".jpg").
Proof.
  unfold save_path, kept_opaque.
  destruct (Image.mode out_img =? "RGBA")%string.
  - destruct (mem (lower (suffix out_path)) [".png"; ".webp"]) eqn:A;
      cbn [negb].
    + split; [|split].
      * apply mem_cases in A. destruct A as [<-|[<-|[]]]; reflexivity.
      * now rewrite A.
      * intros B. apply mem_cases in B.
        destruct B as [B|[B|[B|[]]]]; rewrite <- B in A; discriminate A.
    + split; [reflexivity|]. split; reflexivity.
  - destruct (mem (lower (suffix out_path))
                [".jpg"; ".jpeg"; ".png"; ".webp"]) eqn:A; cbn [negb].
    + split; [exact A|]. split.
      * now rewrite A.
      * intros B. apply mem_cases in B.
        destruct B as [B|[B|[B|[]]]]; rewrite <- B in A; discriminate A.
    + split; [reflexivity|]. split; reflexivity.
Qed.

Lemma save_path_formats_witness :
  suffix (save_path photo scan_bmp) = ".jpg".
Proof.
  destruct (save_path_formats photo scan_bmp) as (_ & _ & R).
  apply R. reflexivity.
Defined.

(* ------------------------------------------------------------------ *)
(** ** The preview pair of the batch loop *)

Lemma list_eqb_eq (xs ys : list string) : list_eqb xs ys = true <-> xs = ys.
Proof.
  revert ys. induction xs as [|x xs IH]; intros [|y ys]; cbn;
    try (split; [discriminate | discriminate]); [tauto|].
  rewrite andb_true_iff, String.eqb_eq, IH.
  split; [intros [-> ->]; reflexivity | intros [= -> ->]; now split].
Qed.

Lemma Path_eqb_eq (p q : Path) : Path_eqb p q = true <-> p = q.
Proof.
  unfold Path_eqb.
  rewrite !andb_true_iff, list_eqb_eq, !String.eqb_eq.
  destruct p, q; cbn. split.
  - intros [[-> ->] ->]. reflexivity.
  - intros [= -> -> ->]. now repeat split.
Qed.

Lemma Path_eqb_neq (p q : Path) : Path_eqb p q = false <-> p <> q.
Proof.
  rewrite <- Path_eqb_eq. destruct (Path_eqb p q); split; congruence.
Qed.

Lemma Path_eqb_neq_sym (p q : Path) :
  Path_eqb p q = false -> Path_eqb q p = false.
Proof. rewrite !Path_eqb_neq. congruence. Qed.

Lemma lookup_others (p q : Path) (fs : list (Path * File)) :
  lookup p (others q fs) = if Path_eqb p q then None else lookup p fs.
Proof.
  induction fs as [|[r f] fs IH]; cbn [others filter lookup fst].
  - now destruct (Path_eqb p q).
  - fold (others q fs).
    destruct (Path_eqb r q) eqn:Erq; cbn [negb].
    + rewrite IH. apply Path_eqb_eq in Erq. subst r.
      now destruct (Path_eqb p q).
    + cbn [lookup]. rewrite IH.
      destruct (Path_eqb p q) eqn:Epq; [|reflexivity].
      apply Path_eqb_eq in Epq. subst p.
      now rewrite (Path_eqb_neq_sym r q Erq).
Qed.

Lemma exists_after_save (d d' : Disk) (im : Image) (q p : Path) :
  save d im q = Ok d' -> exists_ d' p = Path_eqb p q || exists_ d p.
Proof.
  unfold save. destruct (readonly d q); [discriminate|].
  intros [= <-]. unfold exists_. cbn [files lookup].
  rewrite lookup_others. now destruct (Path_eqb p q).
Qed.

Lemma Path_eqb_suffix (p q : Path) :
  (suffix p =? suffix q)%string = false -> Path_eqb p q = false.
Proof. intros E. unfold Path_eqb. rewrite E. apply andb_false_r. Qed.

Lemma first_pair_is_guess `{K : Kernels} (in_root out_root : list string)
    (a : Args) (r : Run) (img_path outp : Path) (d' : Disk) :
  first_pair r = None ->
  attempt (disk r) img_path in_root out_root a = Ok (d', outp) ->
  first_pair (loop_body in_root out_root a r img_path)
  = Some (img_path, dst_guess d' outp).
Proof.
  intros N E. unfold loop_body, process_one. rewrite E. cbn. now rewrite N.
Qed.

(** X6: the path the loop keeps for the before/after preview names a file
    that exists whenever the saved image is RGBA, and also whenever the
    extension was one [save_image] keeps; in the second case it is the very
    path that was written. *)
Theorem dst_guess_exists (d d' : Disk) (out_img : Image) (outp : Path) :
  save_image d out_img outp = Ok d' ->
  (Image.mode out_img = "RGBA" -> exists_ d' (dst_guess d' outp) = true)
  /\ (save_path out_img outp = outp ->
      dst_guess d' outp = outp /\ exists_ d' outp = true).
Proof.
  intros S. unfold save_image in S.
  pose proof (exists_after_save _ _ _ _ outp S) as Eo.
  pose proof (exists_after_save _ _ _ _ (with_suffix outp ".png") S) as Ep.
  split.
  - intros M. unfold dst_guess.
    destruct (exists_ d' outp) eqn:X; [exact X|].
    rewrite Ep. unfold save_path in *. rewrite M in *.
    cbn [String.eqb Ascii.eqb Bool.eqb andb] in *.
    destruct (mem (lower (suffix outp)) [".png"; ".webp"]); cbn [negb] in *.
    + rewrite Path_eqb_refl in Eo. cbn in Eo. congruence.
    + now rewrite Path_eqb_refl.
  - intros Same. rewrite Same, Path_eqb_refl in Eo. cbn in Eo.
    unfold dst_guess. now rewrite Eo.
Qed.

Lemma dst_guess_exists_witness :
  match save_image blank icon scan_bmp with
  | Ok d' => exists_ d' (dst_guess d' scan_bmp) = true
  | Raise _ => False
  end.
Proof.
  destruct (save_image blank icon scan_bmp) as [d'|e] eqn:S;
    [|discriminate S].
  destruct (dst_guess_exists blank d' icon scan_bmp S) as [R _].
  apply R. reflexivity.
Defined.

(** X7: when an image that is not RGBA is saved from a path whose extension
    [save_image] does not keep (a .bmp or .tif input, say), the file is
    written as .jpg while the loop's preview path is the .png sibling; unless
    the original path or that sibling was on the disk before, the preview
    path names a file that does not exist. *)
Theorem dst_guess_misses_jpg (d d' : Disk) (out_img : Image) (outp : Path) :
  save_image d out_img outp = Ok d' ->
  Image.mode out_img <> "RGBA" ->
  mem (lower (suffix outp)) kept_opaque = false ->
  exists_ d outp = false ->
  exists_ d (with_suffix outp ".png") = false ->
  exists_ d' (with_suffix outp ".jpg") = true
  /\ dst_guess d' outp = with_suffix outp ".png"
  /\ exists_ d' (dst_guess d' outp) = false.
Proof.
  intros S M A Xo Xp. unfold save_image in S.
  assert (P : save_path out_img outp = with_suffix outp ".jpg").
  { unfold save_path. apply String.eqb_neq in M. rewrite M.
    unfold kept_opaque in A. now rewrite A. }
  rewrite P in S.
  assert (N : (suffix outp =? ".jpg")%string = false).
  { apply String.eqb_neq. intros E. unfold kept_opaque in A.
    rewrite E in A. discriminate A. }
  pose proof (exists_after_save _ _ _ _ outp S) as Eo.
  pose proof (exists_after_save _ _ _ _ (with_suffix outp ".png") S) as Ep.
  pose proof (exists_after_save _ _ _ _ (with_suffix outp ".jpg") S) as Ej.
  rewrite Path_eqb_refl in Ej.
  rewrite (Path_eqb_suffix outp (with_suffix outp ".jpg") N), Xo in Eo.
  rewrite (Path_eqb_suffix (with_suffix outp ".png")
             (with_suffix outp ".jpg") eq_refl), Xp in Ep.
  cbn in Eo, Ep, Ej.
  split; [exact Ej|]. unfold dst_guess. rewrite Eo. now split.
Qed.

Lemma dst_guess_misses_jpg_witness :
  match save_image blank photo scan_bmp with
  | Ok d' => exists_ d' (dst_guess d' scan_bmp) = false
  | Raise _ => False
  end.
Proof.
  destruct (save_image blank photo scan_bmp) as [d'|e] eqn:S;
    [|discriminate S].
  apply (dst_guess_misses_jpg blank d' photo scan_bmp S);
    [discriminate | reflexivity | reflexivity | reflexivity].
Defined.

(* ------------------------------------------------------------------ *)
(** ** Invariants of the batch loop *)

Section BatchInvariants.

Context `{K : Kernels}.
Variables (in_root out_root : list string) (a : Args).





End BatchInvariants.


(* ------------------------------------------------------------------ *)
(** ** [resize_image]: when it returns, and what it returns *)

Lemma round_div_half (up : bool) (n d : Z) :
  0 <= n -> 0 < d -> 2 * n <= d -> Py.round_div up n d = 0.
Proof.
  intros Hn Hd Hh. unfold Py.round_div.
  rewrite (Z.div_small n d), (Z.mod_small n d) by lia.
  destruct (Z.ltb_spec (2 * n) d); [reflexivity|].
  destruct (Z.ltb_spec d (2 * n)); [lia | reflexivity].
Qed.

Lemma round_div_pos (up : bool) (n d : Z) :
  0 < d -> d < 2 * n -> 1 <= Py.round_div up n d.
Proof. intros Hd Hn. pose proof (round_div_near up n d Hd). nia. Qed.

Lemma resize_fails_width `{K : Kernels} (im : Image) (w h : Z) :
  0 < width im -> w < 1 ->
  PIL.resize im (w, h) = Raise (ValueError "height and width must be > 0").
Proof.
  intros Him Hw. unfold PIL.resize.
  destruct (Z.eqb_spec (width im) w); [lia|]. cbn [andb].
  now destruct (Z.ltb_spec w 1); [|lia].
Qed.

Lemma rgba_mode `{K : Kernels} (img : Image) : Image.mode (rgba img) = "RGBA".
Proof.
  unfold rgba. destruct (Image.mode img =? "RGBA")%string eqn:E; cbn.
  - now apply String.eqb_eq.
  - reflexivity.
Qed.

Lemma pad_fit_fits `{K : Kernels} (src_w src_h w h : Z) :
  0 < src_w -> 0 < src_h -> 0 < w -> 0 < h ->
  fst (pad_fit src_w src_h w h) <= w /\ snd (pad_fit src_w src_h w h) <= h
  /\ (fst (pad_fit src_w src_h w h) = w \/ snd (pad_fit src_w src_h w h) = h).
Proof.
  intros Hsw Hsh Hw Hh. unfold pad_fit.
  destruct (Z.ltb_spec (w * src_h) (src_w * h)); cbn [fst snd].
  - split; [lia|]. split; [apply round_div_le; lia | now left].
  - split; [apply round_div_le; lia|]. split; [lia | now right].
Qed.

(** X9: for a picture and a target of positive sizes, [keep_aspect_pad]
    returns (an image of exactly the target size) precisely when the picture
    is less than [2 * w] times as wide as high and less than [2 * h] times as
    high as wide; for a more elongated picture the fitted side rounds to zero
    and the call raises [ValueError]. *)
Theorem resize_image_pad_returns_iff `{K : Kernels} (img : Image) (w h : Z)
    (bg_mode : string) (bg_rgba : Pixel) :
  0 < width img -> 0 < height img -> 0 < w -> 0 < h ->
  (width img < 2 * w * height img /\ height img < 2 * h * width img ->
   exists out,
     resize_image img true w h "keep_aspect_pad" bg_mode bg_rgba = Ok out
     /\ size out = (w, h))
  /\ (2 * w * height img <= width img \/ 2 * h * width img <= height img ->
      resize_image img true w h "keep_aspect_pad" bg_mode bg_rgba
      = Raise (ValueError "height and width must be > 0")).
Proof.
  intros Hiw Hih Hw Hh. split.
  - intros [Wide High].
    apply resize_image_pad_total; try assumption; unfold pad_fit;
      destruct (Z.ltb_spec (w * height img) (width img * h)); cbn [fst snd];
      try lia; apply round_div_pos; lia.
  - intros [Wide|High].
    + apply resize_image_pad_raises; try assumption. unfold pad_fit.
      destruct (Z.ltb_spec (w * height img) (width img * h)); [|nia].
      cbn [snd]. rewrite round_div_half; lia.
    + rewrite resize_image_pad by assumption. unfold pad_fit.
      destruct (Z.ltb_spec (w * height img) (width img * h)); [nia|].
      rewrite round_div_half by lia.
      rewrite resize_fails_width; [reflexivity | now rewrite rgba_width | lia].
Qed.

Lemma resize_image_pad_returns_iff_witness :
  (exists out,
     resize_image (H := nearest) photo true 512 512 "keep_aspect_pad" "white"
       white = Ok out
     /\ size out = (512, 512))
  /\ resize_image (H := nearest) thin_line true 8 600 "keep_aspect_pad"
       "white" white
     = Raise (ValueError "height and width must be > 0").
Proof.
  split.
  - apply (resize_image_pad_returns_iff (K := nearest) photo 512 512 "white"
             white); cbn; lia.
  - apply (resize_image_pad_returns_iff (K := nearest) thin_line 8 600
             "white" white); cbn; lia.
Defined.

Lemma crop_cover_near `{K : Kernels} (src_w src_h w h : Z) :
  0 < src_w -> 0 < src_h ->
  (fst (crop_cover src_w src_h w h) = w
   /\ near_side (w * src_h) src_w (snd (crop_cover src_w src_h w h)))
  \/ (snd (crop_cover src_w src_h w h) = h
      /\ near_side (h * src_w) src_h (fst (crop_cover src_w src_h w h))).
Proof.
  intros Hw Hh. unfold crop_cover, near_side.
  destruct (_ <? _); cbn [fst snd]; [left | right];
    (split; [reflexivity | now apply round_div_within]).
Qed.

Lemma pad_fit_near `{K : Kernels} (src_w src_h w h : Z) :
  0 < src_w -> 0 < src_h ->
  (fst (pad_fit src_w src_h w h) = w
   /\ near_side (w * src_h) src_w (snd (pad_fit src_w src_h w h)))
  \/ (snd (pad_fit src_w src_h w h) = h
      /\ near_side (h * src_w) src_h (fst (pad_fit src_w src_h w h))).
Proof.
  intros Hw Hh. unfold pad_fit, near_side.
  destruct (_ <? _); cbn [fst snd]; [left | right];
    (split; [reflexivity | now apply round_div_within]).
Qed.

(** X10: for a picture and a target of positive sizes, [keep_aspect_crop]
    always returns an image of exactly the target size.  The picture is
    resized (as RGBA, by Lanczos) to a size that matches the target on one
    side and on the other is the proportional size to within one pixel, and
    covers the target; the result is the centred [w] x [h] crop of that
    resized picture, converted to RGB on a white or opaque custom
    background, so every pixel of the result is a pixel of the scaled
    picture at the centred offset and none is fill. *)
Theorem resize_image_crop_fills `{K : Kernels} (img : Image) (w h : Z)
    (bg_mode : string) (bg_rgba : Pixel) :
  0 < width img -> 0 < height img -> 0 < w -> 0 < h ->
  exists resized out,
    let x0 := (width resized - w) / 2 in
    let y0 := (height resized - h) / 2 in
    let cropped := PIL.crop resized (x0, y0, x0 + w, y0 + h) in
    PIL.resize (rgba img) (width resized, height resized) = Ok resized
    /\ (width resized = w
        /\ near_side (w * height img) (width img) (height resized)
        \/ height resized = h
           /\ near_side (h * width img) (height img) (width resized))
    /\ w <= width resized /\ h <= height resized
    /\ resize_image img true w h "keep_aspect_crop" bg_mode bg_rgba = Ok out
    /\ out = (if (bg_mode =? "white")%string
                 || ((bg_mode =? "custom")%string && (alpha bg_rgba =? 255))
              then PIL.convert cropped "RGB" else cropped)
    /\ size out = (w, h)
    /\ forall x y, 0 <= x < w -> 0 <= y < h ->
         inside resized (x + x0) (y + y0) = true
         /\ getpixel out x y
            = if (background_mode bg_mode bg_rgba =? "RGB")%string
              then convert_pixel "RGBA" "RGB"
                     (getpixel resized (x + x0) (y + y0))
              else getpixel resized (x + x0) (y + y0).
Proof.
  intros Hiw Hih Hw Hh.
  pose proof (crop_cover_covers img w h Hiw Hih) as [Cw Ch].
  pose proof (crop_cover_near (width img) (height img) w h Hiw Hih) as Near.
  rewrite (resize_image_crop img w h bg_mode bg_rgba Hiw Hih Hw Hh).
  destruct (crop_cover (width img) (height img) w h) as [new_w new_h];
    cbn [fst snd] in *.
  destruct (resize_total (rgba img) new_w new_h) as [resized R]; try lia.
  pose proof (resize_size _ _ _ R) as Sz.
  pose proof (resize_keeps_mode _ _ _ R) as Md. rewrite rgba_mode in Md.
  unfold size in Sz. injection Sz as Sw Sh.
  exists resized. rewrite R. cbn [bind].
  assert (In_ : forall x y, 0 <= x < w -> 0 <= y < h ->
            inside resized (x + (new_w - w) / 2) (y + (new_h - h) / 2)
            = true).
  { intros x y Hx Hy. unfold inside. rewrite Sw, Sh.
    pose proof (Z.div_pos (new_w - w) 2). pose proof (Z.div_pos (new_h - h) 2).
    pose proof (Z.mul_div_le (new_w - w) 2).
    pose proof (Z.mul_div_le (new_h - h) 2).
    destruct (Z.leb_spec 0 (x + (new_w - w) / 2)); [|lia].
    destruct (Z.ltb_spec (x + (new_w - w) / 2) new_w); [|lia].
    destruct (Z.leb_spec 0 (y + (new_h - h) / 2)); [|lia].
    destruct (Z.ltb_spec (y + (new_h - h) / 2) new_h); [|lia].
    reflexivity. }
  rewrite Sw, Sh. unfold background_mode.
  destruct (bg_mode =? "white")%string; cbn [orb].
  - eexists. cbn zeta. split; [exact R|]. split; [exact Near|].
    split; [lia|]. split; [lia|]. split; [reflexivity|].
    split; [reflexivity|].
    split; [unfold size; fields; f_equal; lia|].
    intros x y Hx Hy.
    split; [now apply In_|]. fields. now rewrite In_, Md.
  - destruct ((bg_mode =? "custom")%string && (alpha bg_rgba =? 255)).
    + eexists. cbn zeta. split; [exact R|]. split; [exact Near|].
      split; [lia|]. split; [lia|]. split; [reflexivity|].
      split; [reflexivity|].
      split; [unfold size; fields; f_equal; lia|].
      intros x y Hx Hy.
      split; [now apply In_|]. fields. now rewrite In_, Md.
    + eexists. cbn zeta. split; [exact R|]. split; [exact Near|].
      split; [lia|]. split; [lia|]. split; [reflexivity|].
      split; [reflexivity|].
      split; [unfold size; fields; f_equal; lia|].
      intros x y Hx Hy.
      split; [now apply In_|]. fields. now rewrite In_.
Qed.

Lemma resize_image_crop_fills_witness :
  exists resized out,
    resize_image (H := nearest) photo true 512 512 "keep_aspect_crop"
      "white" white = Ok out
    /\ out = PIL.convert (H := nearest)
               (PIL.crop resized
                  ((width resized - 512) / 2, (height resized - 512) / 2,
                   (width resized - 512) / 2 + 512,
                   (height resized - 512) / 2 + 512)) "RGB"
    /\ size out = (512, 512)
    /\ 512 <= width resized /\ 512 <= height resized.
Proof.
  destruct (resize_image_crop_fills (K := nearest) photo 512 512 "white"
              white)
    as (resized & out & B); try (cbn; lia).
  cbn zeta in B. destruct B as (_ & _ & Cw & Ch & E & O & Sz & _).
  exists resized, out.
  split; [exact E|]. split; [exact O|]. split; [exact Sz|].
  split; [exact Cw | exact Ch].
Defined.

Lemma make_canvas_pixel (bg_mode : string) (bg_rgba : Pixel) (sz : Z * Z)
    (x y : Z) :
  getpixel (make_canvas bg_mode bg_rgba sz) x y
  = canvas_colour bg_mode bg_rgba.
Proof.
  unfold make_canvas, canvas_colour.
  destruct (bg_mode =? "transparent")%string; [reflexivity|].
  destruct (bg_mode =? "white")%string; [reflexivity|].
  now destruct (alpha bg_rgba =? 255).
Qed.

(** X11: when [keep_aspect_pad] returns, the picture has been resized (as
    RGBA, by Lanczos) to a size that matches the target on one side and on
    the other is the proportional size to within one pixel, and fits within
    the target; it is pasted at the centred offset, entirely inside the
    canvas, and every pixel outside it has the colour of the background:
    transparent, white, or the custom colour (without its alpha when that is
    255). *)
Theorem resize_image_pad_letterbox `{K : Kernels} (img out : Image) (w h : Z)
    (bg_mode : string) (bg_rgba : Pixel) :
  0 < width img -> 0 < height img -> 0 < w -> 0 < h ->
  resize_image img true w h "keep_aspect_pad" bg_mode bg_rgba = Ok out ->
  exists resized,
    PIL.resize (rgba img) (width resized, height resized) = Ok resized
    /\ (width resized = w
        /\ near_side (w * height img) (width img) (height resized)
        \/ height resized = h
           /\ near_side (h * width img) (height img) (width resized))
    /\ 1 <= width resized <= w /\ 1 <= height resized <= h
    /\ let ox := (w - width resized) / 2 in
       let oy := (h - height resized) / 2 in
       0 <= ox /\ ox + width resized <= w
       /\ 0 <= oy /\ oy + height resized <= h
       /\ out = PIL.paste_mask (make_canvas bg_mode bg_rgba (w, h)) resized
                  (ox, oy) resized
       /\ forall x y,
            ~ (ox <= x < ox + width resized /\ oy <= y < oy + height resized) ->
            getpixel out x y = canvas_colour bg_mode bg_rgba.
Proof.
  intros Hiw Hih Hw Hh.
  rewrite (resize_image_pad img w h bg_mode bg_rgba Hiw Hih Hw Hh).
  pose proof (pad_fit_fits (width img) (height img) w h Hiw Hih Hw Hh)
    as (Fw & Fh & One).
  pose proof (pad_fit_near (width img) (height img) w h Hiw Hih) as Near.
  destruct (pad_fit (width img) (height img) w h) as [new_w new_h];
    cbn [fst snd] in *.
  destruct (PIL.resize (rgba img) (new_w, new_h)) as [resized|] eqn:R;
    [|discriminate].
  cbn [bind]. intros [= <-].
  pose proof (resize_size _ _ _ R) as Sz. unfold size in Sz.
  injection Sz as Sw Sh.
  assert (Pw : 1 <= new_w).
  { destruct (Z.le_gt_cases 1 new_w) as [L|L]; [exact L|].
    rewrite resize_fails_width in R; [discriminate | | lia].
    rewrite rgba_width. exact Hiw. }
  assert (Ph : 1 <= new_h).
  { destruct (Z.le_gt_cases 1 new_h) as [L|L]; [exact L|].
    rewrite resize_fails in R; [discriminate | | lia].
    rewrite rgba_height. exact Hih. }
  exists resized. rewrite Sw, Sh. split; [exact R|].
  split; [exact Near|]. split; [lia|]. split; [lia|].
  cbn zeta.
  pose proof (Z.div_pos (w - new_w) 2). pose proof (Z.div_pos (h - new_h) 2).
  pose proof (Z.mul_div_le (w - new_w) 2).
  pose proof (Z.mul_div_le (h - new_h) 2).
  split; [lia|]. split; [lia|]. split; [lia|]. split; [lia|].
  split; [reflexivity|].
  intros x y Out. fields. unfold inside. rewrite Sw, Sh.
  destruct (Z.leb_spec 0 (x - (w - new_w) / 2));
    [|apply make_canvas_pixel].
  destruct (Z.ltb_spec (x - (w - new_w) / 2) new_w);
    [|apply make_canvas_pixel].
  destruct (Z.leb_spec 0 (y - (h - new_h) / 2));
    [|apply make_canvas_pixel].
  destruct (Z.ltb_spec (y - (h - new_h) / 2) new_h);
    [|apply make_canvas_pixel].
  exfalso. apply Out. lia.
Qed.

Lemma resize_image_pad_letterbox_witness :
  match resize_image (H := nearest) photo true 512 512 "keep_aspect_pad"
          "white" white with
  | Ok out => getpixel out 0 0 = white
  | Raise _ => False
  end.
Proof.
  destruct (resize_image (H := nearest) photo true 512 512 "keep_aspect_pad"
              "white" white) as [out|e] eqn:E; [|discriminate E].
  destruct (resize_image_pad_letterbox (K := nearest) photo out 512 512
              "white" white) as (resized & R & Near & Fw & Fh & B);
    try (cbn; lia); [exact E|].
  cbn zeta in B. destruct B as (_ & _ & _ & _ & _ & Px).
  rewrite Px; [reflexivity|].
  unfold near_side in Near. cbn [photo width height] in Near.
  pose proof (Z.div_le_lower_bound (512 - height resized) 2 1). lia.
Defined.

Lemma resize_image_modes `{K : Kernels} (img out : Image) (w h : Z)
    (mode bg_mode : string) (bg_rgba : Pixel) :
  0 < w -> 0 < h ->
  resize_image img true w h mode bg_mode bg_rgba = Ok out ->
  (mode = "stretch" -> Image.mode out = Image.mode img)
  /\ (mode = "keep_aspect_pad" \/ mode = "keep_aspect_crop" ->
      bg_mode = "transparent" \/ bg_mode = "white" \/ bg_mode = "custom" ->
      Image.mode out = background_mode bg_mode bg_rgba).
Proof.
  intros Hw Hh. unfold resize_image. rewrite guard_open by assumption.
  split.
  - intros ->. cbn [String.eqb Ascii.eqb Bool.eqb andb] in H.
    exact (resize_keeps_mode _ _ _ H).
  - intros Hm Hb. revert H. fold (rgba img). unfold size at 1.
    assert (Es : (mode =? "stretch")%string = false)
      by (destruct Hm as [-> | ->]; reflexivity).
    rewrite Es.
    destruct (Py.truediv (width (rgba img)) (height (rgba img)))
      as [src_ratio|]; [|discriminate].
    destruct (Py.truediv w h) as [dst_ratio|]; [|discriminate].
    cbn [bind].
    destruct Hm as [-> | ->]; cbn [String.eqb Ascii.eqb Bool.eqb andb].
    + match goal with
      | |- context [bind ?c _] => destruct c as [[new_w new_h]|]
      end; [|discriminate].
      cbn [bind].
      destruct (PIL.resize (rgba img) (new_w, new_h)); [|discriminate].
      cbn [bind]. intros [= <-].
      unfold background_mode, make_canvas.
      destruct Hb as [-> | [-> | ->]];
        cbn [String.eqb Ascii.eqb Bool.eqb andb]; try reflexivity.
      now destruct (alpha bg_rgba =? 255).
    + match goal with
      | |- context [bind ?c _] => destruct c as [[new_w new_h]|]
      end; [|discriminate].
      cbn [bind].
      destruct (PIL.resize (rgba img) (new_w, new_h)) as [resized|] eqn:R;
        [|discriminate].
      cbn [bind].
      pose proof (resize_keeps_mode _ _ _ R) as Md. rewrite rgba_mode in Md.
      unfold background_mode.
      destruct Hb as [-> | [-> | ->]];
        cbn [String.eqb Ascii.eqb Bool.eqb andb orb].
      * intros [= <-]. exact Md.
      * now intros [= <-].
      * destruct (alpha bg_rgba =? 255); intros [= <-];
          [reflexivity | exact Md].
Qed.

(** X12: the colour mode of what [resize_image] returns: 'stretch' keeps the
    mode of the input; the two aspect-keeping modes return RGB on a white
    background and on a custom colour of alpha 255, and RGBA on a transparent
    background and on a custom colour of any other alpha, whatever the mode
    of the input. *)
Theorem resize_image_mode `{K : Kernels} (img out : Image) (w h : Z)
    (mode bg_mode : string) (bg_rgba : Pixel) :
  0 < w -> 0 < h ->
  resize_image img true w h mode bg_mode bg_rgba = Ok out ->
  (mode = "stretch" -> Image.mode out = Image.mode img)
  /\ (mode = "keep_aspect_pad" \/ mode = "keep_aspect_crop" ->
      bg_mode = "transparent" \/ bg_mode = "white" \/ bg_mode = "custom" ->
      Image.mode out = background_mode bg_mode bg_rgba).
Proof. apply resize_image_modes. Qed.

Lemma resize_image_mode_witness :
  match resize_image (H := nearest) photo true 512 512 "keep_aspect_crop"
          "transparent" transparent with
  | Ok out => Image.mode out = "RGBA"
  | Raise _ => False
  end.
Proof.
  destruct (resize_image (H := nearest) photo true 512 512 "keep_aspect_crop"
              "transparent" transparent) as [out|e] eqn:E; [|discriminate E].
  destruct (resize_image_mode (K := nearest) photo out 512 512
              "keep_aspect_crop" "transparent" transparent) as [_ M];
    [lia | lia | exact E |].
  apply M; [now right | now left].
Defined.

(* ------------------------------------------------------------------ *)
(** ** More on [remove_bg_and_square] and on the pipeline *)

(** X13: in the fixed-size square, whenever the subject is rescaled (it
    exceeds the square, or it is smaller and upscaling is allowed) its longer
    side becomes exactly [target]; in particular with upscaling allowed a
    subject of any other size is always brought to touch the square. *)
Theorem scale_subject_longer_side `{K : Kernels} (out subject : Image)
    (target : Z) (no_upscale : bool) :
  0 < width out -> 0 < height out -> 0 < target ->
  scale_subject out target no_upscale = Ok subject ->
  (rescales out target no_upscale = true ->
   Z.max (width subject) (height subject) = target)
  /\ (rescales out target no_upscale = false -> subject = out)
  /\ (no_upscale = false -> Z.max (width out) (height out) <> target ->
      rescales out target no_upscale = true).
Proof.
  intros Hw Hh Ht E.
  destruct (scale_subject_cases out target Hw Hh Ht no_upscale)
    as (subject' & E' & _ & C).
  rewrite E in E'. injection E' as <-.
  split; [|split].
  - intros R. rewrite R in C. destruct C as [-> ->].
    now apply scaled_side_longest.
  - intros R. now rewrite R in C.
  - intros -> N. unfold rescales. cbn [negb]. rewrite andb_true_r.
    destruct (Z.ltb_spec target (Z.max (width out) (height out)));
      [reflexivity|].
    destruct (Z.ltb_spec (Z.max (width out) (height out)) target);
      [reflexivity | lia].
Qed.

Lemma scale_subject_longer_side_witness :
  match scale_subject (H := nearest) icon 512 false with
  | Ok subject => Z.max (width subject) (height subject) = 512
  | Raise _ => False
  end.
Proof.
  destruct (scale_subject (H := nearest) icon 512 false) as [subject|e] eqn:E;
    [|discriminate E].
  apply (scale_subject_longer_side (K := nearest) icon subject 512 false);
    [cbn; lia | cbn; lia | lia | exact E | reflexivity].
Defined.

(** X14: the square canvas always holds the whole subject.  The subject is
    the cutout itself in the variant without a fixed size and what
    [scale_subject] returns for it in the fixed-size variant; in both the
    canvas is the transparent square with the subject pasted at an offset
    that is not negative, ends within the canvas and leaves margins that
    differ by at most one pixel, and every pixel of the canvas outside the
    subject is fully transparent. *)
Theorem square_step_contains `{K : Kernels} (out canvas : Image)
    (square_size : option Z) (no_upscale : bool) :
  0 < width out -> 0 < height out ->
  square_step out true square_size no_upscale = Ok canvas ->
  let side := canvas_side out square_size in
  exists subject,
    let ox := (side - width subject) / 2 in
    let oy := (side - height subject) / 2 in
    match fixed_square square_size with
    | Some target => scale_subject out target no_upscale = Ok subject
    | None => subject = out
    end
    /\ canvas = PIL.paste_mask (PIL.new "RGBA" (side, side) transparent)
                  subject (ox, oy) subject
    /\ 0 <= ox /\ ox + width subject <= side
    /\ 0 <= oy /\ oy + height subject <= side
    /\ 0 <= side - width subject - 2 * ox <= 1
    /\ 0 <= side - height subject - 2 * oy <= 1
    /\ forall x y,
         ~ (ox <= x < ox + width subject /\ oy <= y < oy + height subject) ->
         getpixel canvas x y = transparent.
Proof.
  intros Hw Hh. unfold square_step, canvas_side.
  assert (Geo : forall (subject : Image) (side : Z),
            width subject <= side -> height subject <= side ->
            let ox := (side - width subject) / 2 in
            let oy := (side - height subject) / 2 in
            0 <= ox /\ ox + width subject <= side
            /\ 0 <= oy /\ oy + height subject <= side
            /\ 0 <= side - width subject - 2 * ox <= 1
            /\ 0 <= side - height subject - 2 * oy <= 1
            /\ forall x y,
                 ~ (ox <= x < ox + width subject
                    /\ oy <= y < oy + height subject) ->
                 getpixel
                   (PIL.paste_mask (PIL.new "RGBA" (side, side) transparent)
                      subject (ox, oy) subject) x y
                 = transparent).
  { intros subject side Fw Fh ox oy.
    pose proof (Z.div_pos (side - width subject) 2).
    pose proof (Z.div_pos (side - height subject) 2).
    pose proof (Z.mul_div_le (side - width subject) 2).
    pose proof (Z.mul_div_le (side - height subject) 2).
    pose proof (Z.mul_succ_div_gt (side - width subject) 2).
    pose proof (Z.mul_succ_div_gt (side - height subject) 2).
    subst ox oy.
    split; [lia|]. split; [lia|]. split; [lia|]. split; [lia|].
    split; [lia|]. split; [lia|].
    intros x y Out. fields. unfold inside.
    destruct (Z.leb_spec 0 (x - (side - width subject) / 2));
      [|reflexivity].
    destruct (Z.ltb_spec (x - (side - width subject) / 2) (width subject));
      [|reflexivity].
    destruct (Z.leb_spec 0 (y - (side - height subject) / 2));
      [|reflexivity].
    destruct (Z.ltb_spec (y - (side - height subject) / 2) (height subject));
      [|reflexivity].
    exfalso. apply Out. lia. }
  destruct (fixed_square square_size) as [target|] eqn:F.
  - apply fixed_square_pos in F.
    destruct (scale_subject_cases out target Hw Hh F no_upscale)
      as (subject & E & _ & C).
    rewrite E. cbn [bind]. unfold size. intros [= <-]. cbn zeta.
    exists subject. split; [reflexivity|]. split; [reflexivity|].
    apply Geo.
    + unfold rescales in C.
      destruct (Z.ltb_spec target (Z.max (width out) (height out)));
        cbn [orb] in C.
      * destruct C as [-> _]. apply scaled_side_le_target; lia.
      * destruct ((Z.max (width out) (height out) <? target)
                  && negb no_upscale).
        -- destruct C as [-> _]. apply scaled_side_le_target; lia.
        -- subst subject. lia.
    + unfold rescales in C.
      destruct (Z.ltb_spec target (Z.max (width out) (height out)));
        cbn [orb] in C.
      * destruct C as [_ ->]. apply scaled_side_le_target; lia.
      * destruct ((Z.max (width out) (height out) <? target)
                  && negb no_upscale).
        -- destruct C as [_ ->]. apply scaled_side_le_target; lia.
        -- subst subject. lia.
  - unfold size. intros [= <-]. cbn zeta.
    exists out. split; [reflexivity|]. split; [reflexivity|].
    apply Geo; lia.
Qed.

Lemma square_step_contains_witness :
  match square_step (H := nearest) icon true None true with
  | Ok canvas =>
      canvas = PIL.paste_mask (H := nearest)
                 (PIL.new "RGBA" (30, 30) transparent) icon
                 ((30 - width icon) / 2, (30 - height icon) / 2) icon
      /\ getpixel canvas 0 0 = transparent
  | Raise _ => False
  end.
Proof.
  destruct (square_step (H := nearest) icon true None true) as [canvas|e]
    eqn:E; [|discriminate E].
  destruct (square_step_contains (K := nearest) icon canvas None true)
    as (subject & B); [cbn; lia | cbn; lia | exact E |].
  cbn zeta in B. cbn [fixed_square] in B.
  destruct B as (-> & Eq & _ & _ & _ & _ & _ & _ & Px).
  split; [exact Eq|]. apply Px. cbn. lia.
Defined.

(** X15: without squaring, [remove_bg_and_square] always returns, on every
    background, an image [2 * pad] wider and higher than the cutout, whose
    sides are those of the input, swapped where rembg turns the picture; a
    negative [pad] counts as none. *)
Theorem remove_bg_and_square_plain_size `{K : Kernels} (img : Image)
    (bg_mode : string) (bg_rgba : Pixel) (pad : Z) (square_size : option Z)
    (no_upscale : bool) :
  exists out,
    remove_bg_and_square img bg_mode bg_rgba pad false square_size no_upscale
    = Ok out
    /\ size out
       = if transposes (rgba img)
         then (height img + 2 * Z.max 0 pad, width img + 2 * Z.max 0 pad)
         else (width img + 2 * Z.max 0 pad, height img + 2 * Z.max 0 pad).
Proof.
  rewrite remove_bg_and_square_steps. cbn [square_step bind].
  eexists. split; [reflexivity|].
  rewrite composite_step_size. apply cutout_size.
Qed.

Lemma remove_bg_and_square_returns `{K : Kernels} (img : Image)
    (bg_mode : string) (bg_rgba : Pixel) (pad : Z) (square : bool)
    (square_size : option Z) (no_upscale : bool) :
  0 < width img -> 0 < height img ->
  exists out,
    remove_bg_and_square img bg_mode bg_rgba pad square square_size no_upscale
    = Ok out
    /\ 0 < width out /\ 0 < height out.
Proof.
  intros Hw Hh. rewrite remove_bg_and_square_steps.
  destruct (cutout_pos img pad Hw Hh) as [Cw Ch].
  destruct square.
  - destruct (square_step_square (cutout img pad) square_size no_upscale
                Cw Ch) as (canvas & -> & _ & Sz).
    cbn [bind]. eexists. split; [reflexivity|].
    pose proof (composite_step_size canvas bg_mode bg_rgba) as C.
    rewrite Sz in C. unfold size in C.
    assert (Ew := f_equal fst C). assert (Eh := f_equal snd C).
    cbn [fst snd] in Ew, Eh. rewrite Ew, Eh.
    assert (0 < canvas_side (cutout img pad) square_size); [|lia].
    unfold canvas_side.
    destruct (fixed_square square_size) eqn:F;
      [exact (fixed_square_pos _ _ F) | lia].
  - cbn [square_step bind]. eexists. split; [reflexivity|].
    pose proof (composite_step_size (cutout img pad) bg_mode bg_rgba) as C.
    unfold size in C.
    assert (Ew := f_equal fst C). assert (Eh := f_equal snd C).
    cbn [fst snd] in Ew, Eh. lia.
Qed.

Lemma apply_brightness_keeps `{K : Kernels} (img : Image) (factor : Q) :
  size (apply_brightness img factor) = size img
  /\ Image.mode (apply_brightness img factor) = Image.mode img.
Proof. unfold apply_brightness. now destruct (Qeq_bool factor 1). Qed.

Lemma base_of_size `{K : Kernels} (im : Image) :
  size (base_of im) = size im.
Proof. unfold base_of. now destruct (negb _). Qed.

Lemma base_of_opened `{K : Kernels} (im : Image) :
  mem (Image.mode im) ["RGB"; "RGBA"] = true -> base_of im = im.
Proof. intros M. unfold base_of. now rewrite M. Qed.

(** X16: the brightness-only operation of [process_one] on a file that
    opens.  For a factor other than 1.0 the image it saves has the size of
    the opened image and the colour mode of [base], so the file gets the
    extension [base] itself would get, and [process_one] succeeds exactly
    when the saving does.  At factor 1.0 an RGB or RGBA file is handed to
    [save_image] as the opened object itself, after the [with] block has
    closed it: where reading the closed file raises, [process_one] reports
    that failure and writes nothing. *)
Theorem brightness_only_keeps `{K : Kernels} (d : Disk) (in_path rel : Path)
    (in_root out_root : list string) (a : Args) (im : Image) :
  operation a = "brightness_only" ->
  relative_to in_path in_root = Ok rel ->
  open d in_path = Ok im ->
  let out_path := joinpath out_root rel in
  (~ (brightness a == 1)%Q ->
   let out := apply_brightness (base_of im) (brightness a) in
   size out = size im
   /\ Image.mode out = Image.mode (base_of im)
   /\ save_path out out_path = save_path (base_of im) out_path
   /\ process_one d in_path in_root out_root a
      = match save_image d out out_path with
        | Ok d' => (d', (in_path, out_path, true, ""))
        | Raise e => (d, (in_path, empty_path, false, str e))
        end)
  /\ ((brightness a == 1)%Q ->
      mem (Image.mode im) ["RGB"; "RGBA"] = true ->
      forall e, reload im = Some e ->
      process_one d in_path in_root out_root a
      = (d, (in_path, empty_path, false, str e))).
Proof.
  intros Op R O out_path.
  rewrite (process_one_delivers d in_path rel in_root out_root a im R O).
  fold out_path. unfold transform. rewrite Op.
  cbn [String.eqb Ascii.eqb Bool.eqb andb].
  destruct (apply_brightness_keeps (base_of im) (brightness a)) as [Sz Md].
  split.
  - intros N.
    split; [now rewrite Sz, base_of_size|]. split; [exact Md|].
    split; [unfold save_path; now rewrite Md|].
    unfold deliver, apply_brightness.
    destruct (Qeq_bool (brightness a) 1) eqn:E;
      [apply Qeq_bool_iff in E; contradiction|].
    reflexivity.
  - intros E M e Re. unfold deliver, apply_brightness.
    rewrite (proj2 (Qeq_bool_iff (brightness a) 1) E).
    rewrite (base_of_opened im M). cbn [bind]. unfold PIL.load_closed.
    now rewrite (open_lazy d in_path im O), Re.
Qed.

Lemma brightness_only_keeps_witness :
  process_one (H := nearest) folder cat_jpg ["in"] ["out"] brightness_off
  = (folder, (cat_jpg, empty_path, false, "Operation on closed image")).
Proof.
  destruct (brightness_only_keeps (K := nearest) folder cat_jpg
              {| parts := []; stem := "cat"; suffix := ".jpg" |}
              ["in"] ["out"] brightness_off (opened photo)
              eq_refl eq_refl eq_refl)
    as [_ Closed].
  apply (Closed (Qeq_refl 1) eq_refl
           (ValueError "Operation on closed image")).
  reflexivity.
Defined.

(** X17: with 'do_all', resizing enabled, a positive target and the mode
    'stretch' or 'keep_aspect_crop', the pipeline always returns an image of
    exactly the target size for an input of positive size, whatever the
    padding, the squaring, the background and the brightness. *)
Theorem do_all_final_size `{K : Kernels} (base : Image) (a : Args) :
  0 < width base -> 0 < height base ->
  operation a = "do_all" -> enable_resize a = true ->
  0 < target_w a -> 0 < target_h a ->
  resize_mode a = "stretch" \/ resize_mode a = "keep_aspect_crop" ->
  exists out,
    transform base a = Ok out /\ size out = (target_w a, target_h a).
Proof.
  intros Hw Hh Op En Tw Th Md. unfold transform. rewrite Op, En.
  cbn [String.eqb Ascii.eqb Bool.eqb andb].
  destruct (remove_bg_and_square_returns base (bg_mode a) (bg_rgba a) (pad a)
              (square a) (square_size a) (no_upscale a) Hw Hh)
    as (cut & -> & Cw & Ch).
  cbn [bind].
  destruct (apply_brightness_keeps cut (brightness a)) as [Sz _].
  unfold size in Sz.
  assert (Bw := f_equal fst Sz). assert (Bh := f_equal snd Sz).
  cbn [fst snd] in Bw, Bh.
  destruct Md as [-> | ->].
  - apply resize_image_stretch; lia.
  - apply resize_image_crop_total; lia.
Qed.

Lemma do_all_final_size_witness :
  exists out,
    transform (H := nearest) photo all_on = Ok out /\ size out = (512, 512).
Proof.
  apply (do_all_final_size (K := nearest) photo all_on);
    [cbn; lia | cbn; lia | reflexivity | reflexivity | cbn; lia | cbn; lia
    | now right].
Defined.

(* ------------------------------------------------------------------ *)
(** ** Paths through [process_one] *)

Lemma strip_prefix_app (root dirs : list string) :
  strip_prefix root (root ++ dirs) = Some dirs.
Proof.
  induction root as [|r root IH]; [reflexivity|].
  cbn. now rewrite String.eqb_refl.
Qed.

Lemma relative_to_joinpath `{K : Kernels} (root : list string) (rel : Path) :
  relative_to (joinpath root rel) root = Ok rel.
Proof.
  unfold relative_to, joinpath. cbn [parts stem suffix].
  rewrite strip_prefix_app. now destruct rel.
Qed.

(** X18: [process_one] mirrors the relative path: for the input
    [in_root / rel] a successful call reports [out_root / rel] and has written
    its result under the directories [out_root / rel] and the stem of [rel],
    with the extension [save_image] chooses; for an input that is not under
    [in_root] it reports a failure with the text of pathlib's error and
    leaves the disk as it was. *)
Theorem process_one_mirrors `{K : Kernels} (d : Disk) (rel : Path)
    (in_root out_root : list string) (a : Args) :
  (forall d' written,
     attempt d (joinpath in_root rel) in_root out_root a = Ok (d', written) ->
     written = joinpath out_root rel
     /\ exists out,
          lookup (save_path out written) (files d') = Some (Picture out)
          /\ parts (save_path out written) = (out_root ++ parts rel)%list
          /\ stem (save_path out written) = stem rel)
  /\ (forall p,
        strip_prefix in_root (parts p) = None ->
        process_one d p in_root out_root a
        = (d, (p, empty_path, false, not_in_subpath p in_root))).
Proof.
  split.
  - intros d' written E.
    apply attempt_inv in E
      as (rel' & im & out & saved & R & _ & _ & _ & S & ->).
    rewrite relative_to_joinpath in R. injection R as <-.
    split; [reflexivity|].
    exists saved. split; [exact (save_records _ _ _ _ S)|].
    unfold save_path.
    destruct (Image.mode saved =? "RGBA")%string;
      match goal with |- context [negb ?c] => destruct c end;
      split; reflexivity.
  - intros p N. unfold process_one, attempt, relative_to. now rewrite N.
Qed.

Lemma process_one_mirrors_witness :
  process_one (H := nearest) folder cat_jpg ["elsewhere"] ["out"]
    brightness_run
  = (folder, (cat_jpg, empty_path, false,
              not_in_subpath (Kernels := nearest) cat_jpg ["elsewhere"])).
Proof.
  apply (process_one_mirrors (K := nearest) folder cat_jpg ["elsewhere"]
           ["out"] brightness_run).
  reflexivity.
Defined.

(** X19: the 'Resize' operation resizes whether or not its 'Enable' box is
    ticked, and as its background is the transparent default, the two
    aspect-keeping modes always hand back an RGBA image: a picture that
    comes from a .jpg, .jpeg, .bmp or .tif file is then written as .png. *)
Theorem resize_only_writes_png `{K : Kernels} (base out : Image)
    (enable : bool) (w h : Z) (mode : string) (out_path : Path) :
  0 < w -> 0 < h ->
  mode = "keep_aspect_pad" \/ mode = "keep_aspect_crop" ->
  transform base (resize_only_args enable w h mode) = Ok out ->
  transform base (resize_only_args enable w h mode)
  = resize_image base true w h mode "transparent" (0, 0, 0, 0)
  /\ Image.mode out = "RGBA"
  /\ (mem (lower (suffix out_path)) alpha_capable = false ->
      save_path out out_path = with_suffix out_path ".png").
Proof.
  intros Hw Hh Hm E.
  assert (T : transform base (resize_only_args enable w h mode)
              = resize_image base true w h mode "transparent" (0, 0, 0, 0))
    by reflexivity.
  split; [exact T|]. rewrite T in E.
  destruct (resize_image_modes base out w h mode "transparent" (0, 0, 0, 0)
              Hw Hh E) as [_ M].
  assert (Md : Image.mode out = "RGBA") by (apply M; auto).
  split; [exact Md|].
  intros A. unfold save_path. rewrite Md.
  cbn [String.eqb Ascii.eqb Bool.eqb andb].
  unfold alpha_capable in A. now rewrite A.
Qed.

Lemma resize_only_writes_png_witness :
  match transform (H := nearest) photo
          (resize_only_args false 512 512 "keep_aspect_pad") with
  | Ok out => save_path out cat_jpg = with_suffix cat_jpg ".png"
  | Raise _ => False
  end.
Proof.
  destruct (transform (H := nearest) photo
              (resize_only_args false 512 512 "keep_aspect_pad"))
    as [out|e] eqn:E; [|discriminate E].
  destruct (resize_only_writes_png (K := nearest) photo out false 512 512
              "keep_aspect_pad" cat_jpg) as (_ & _ & P);
    [lia | lia | now left | exact E |].
  apply P. reflexivity.
Defined.
